(** * Layout reconstruction engine of WriteUpGen (src/pdf/main_3.py)

    A shallow embedding of [GeometryUtils], [ColumnDetector] and
    [LayoutEngine], and the properties of the written specification that
    concern them.

    Numbers.  The program computes with Python ints and floats.  Box
    coordinates and page sizes are the ints that [perform_ocr] hands over;
    they are embedded as rationals [Q], and sums, differences, minima,
    maxima and comparisons of them are exact, as they are for Python ints.
    Bin indices are Python ints and are embedded as [Z].  A division by zero
    raises [ZeroDivisionError], as in Python.

    The first part of the development reads every arithmetic operation as
    the exact one.  The second part, "Floating point", takes the rounding of
    every float operation into account: it is the one to read for the
    values of the bins, of the split and of the band around it. *)

From Stdlib Require Import QArith Qabs Qround Qminmax ZArith List String Bool.
From Stdlib Require Import Lia Lqa Qpower Permutation Sorted.
Import ListNotations.

Local Open Scope Q_scope.

(** ** Python numbers *)

Module PyNum.

(** [a < b] on numbers, as a boolean. *)
Definition Qltb (a b : Q) : bool := negb (Qle_bool b a).

(** The builtin [min(a, b)]: [b] when [b < a], else [a]. *)
Definition py_min2 (a b : Q) : Q := if Qltb b a then b else a.

(** The builtin [max(a, b)]: [b] when [b > a], else [a]. *)
Definition py_max2 (a b : Q) : Q := if Qltb a b then b else a.

(** [min] and [max] over a non-empty iterable whose first element is [x]:
    the running best is replaced only by a strictly better element. *)
Definition py_min (x : Q) (xs : list Q) : Q := fold_left py_min2 xs x.
Definition py_max (x : Q) (xs : list Q) : Q := fold_left py_max2 xs x.

(** [int(q)]: truncation toward zero. *)
Definition py_int (q : Q) : Z := Z.quot (Qnum q) (Zpos (Qden q)).

(** [sum] of an iterable of numbers. *)
Definition py_sum (xs : list Q) : Q := fold_left Qplus xs 0.

(** Truth value of a number: zero is false. *)
Definition truthy (q : Q) : bool := negb (Qeq_bool q 0).

End PyNum.
Import PyNum.

(** ** Exceptions *)

Inductive exn : Type := ZeroDivisionError.

Inductive pyres (A : Type) : Type :=
| Ret (a : A)
| Raise (e : exn).
Arguments Ret {A} a.
Arguments Raise {A} e.

Definition bind {A B : Type} (m : pyres A) (k : A -> pyres B) : pyres B :=
  match m with
  | Ret a => k a
  | Raise e => Raise e
  end.

Notation "x <- m ;; k" := (bind m (fun x => k))
  (at level 61, m at next level, right associativity).

(** [a / b] on numbers. *)
Definition py_div (a b : Q) : pyres Q :=
  if Qeq_bool b 0 then Raise ZeroDivisionError else Ret (a / b).

(** ** Data model *)

(** A box is the four-element list [[x0, y0, x1, y1]]. *)
Record Box : Type := mkBox { x0 : Q; y0 : Q; x1 : Q; y1 : Q }.

(** A fragment, a line and a block are all dicts [{'text': ..., 'box': ...}]. *)
Record Item : Type := mkItem { text : string; box : Box }.

Definition height (b : Box) : Q := y1 b - y0 b.

(** ** [list.sort(key=...)]

    Python's sort is stable and compares keys with [<] only.  A stable sort
    has one possible result, so insertion sort stands for it. *)

Section Sort.
Context {A : Type} (key : A -> Q).

Fixpoint insert_by (x : A) (l : list A) : list A :=
  match l with
  | [] => [x]
  | y :: l' =>
      if Qltb (key y) (key x) then y :: insert_by x l' else x :: y :: l'
  end.

Fixpoint sort_by (l : list A) : list A :=
  match l with
  | [] => []
  | x :: l' => insert_by x (sort_by l')
  end.
End Sort.

(** ** GeometryUtils *)

Definition merge_boxes (boxes : list Box) : Box :=
  match boxes with
  | [] => mkBox 0 0 0 0
  | b :: bs =>
      mkBox (py_min (x0 b) (map x0 bs)) (py_min (y0 b) (map y0 bs))
            (py_max (x1 b) (map x1 bs)) (py_max (y1 b) (map y1 bs))
  end.

(** The one-character string ["\n"]. *)
Definition newline : string := String (Ascii.ascii_of_nat 10) EmptyString.

(** ** LayoutEngine._merge_items *)

Definition _merge_items (items : list Item) (join_char : string) : Item :=
  let b := merge_boxes (map box items) in
  let items' := sort_by (fun i => x0 (box i)) items in
  mkItem (String.concat join_char (map text items')) b.

(** ** ColumnDetector.find_split_x *)

Definition bins : Z := 400.

(** [np.zeros(bins)]: a bin holds 0 (false) or 1 (true). *)
Definition zeros : list bool := repeat false (Z.to_nat bins).

(** Bounds of a slice [a[start:stop]] of an array of length [len]: a
    negative index counts from the end, and both ends are clamped. *)
Definition slice_index (len i : Z) : Z :=
  if (i <? 0)%Z then Z.max 0 (i + len) else Z.min i len.

(** [density_map[start:stop] = 1], the bin under the head having index [i]. *)
Fixpoint fill_from (i lo hi : Z) (dm : list bool) : list bool :=
  match dm with
  | [] => []
  | v :: dm' =>
      (if ((lo <=? i) && (i <? hi))%Z then true else v)
        :: fill_from (i + 1) lo hi dm'
  end.

Definition slice_fill (dm : list bool) (start stop : Z) : list bool :=
  let len := Z.of_nat (List.length dm) in
  fill_from 0 (slice_index len start) (slice_index len stop) dm.

(** [density_map[i]] is non-zero. *)
Definition occupied (dm : list bool) (i : Z) : bool :=
  nth (Z.to_nat i) dm false.

(** Step 2: the boxes that take part in the histogram. *)
Definition keep_box (page_width page_height : Q) (b : Box) : bool :=
  negb (Qltb (y0 b) (page_height * 0.15))
  && negb (Qltb (page_width * 0.85) (x1 b - x0 b)).

Definition valid_boxes (boxes : list Box) (page_width page_height : Q)
  : list Box :=
  match filter (keep_box page_width page_height) boxes with
  | [] => boxes
  | vs => vs
  end.

(** Step 3: one box marks its bins. *)
Definition mark_box (page_width : Q) (dm : list bool) (b : Box)
  : pyres (list bool) :=
  r0 <- py_div (x0 b) page_width ;;
  let start := Z.max 0 (py_int (r0 * inject_Z bins)) in
  r1 <- py_div (x1 b) page_width ;;
  let stop := Z.min bins (py_int (r1 * inject_Z bins)) in
  Ret (slice_fill dm start stop).

Fixpoint build_histogram (page_width : Q) (dm : list bool) (bs : list Box)
  : pyres (list bool) :=
  match bs with
  | [] => Ret dm
  | b :: bs' =>
      dm' <- mark_box page_width dm b ;;
      build_histogram page_width dm' bs'
  end.

Definition density_map (boxes : list Box) (page_width page_height : Q)
  : pyres (list bool) :=
  build_histogram page_width zeros (valid_boxes boxes page_width page_height).

(** Step 4: the search window and the scan for gaps. *)
Definition search_start : Z := py_int (inject_Z bins * 0.20).
Definition search_end : Z := py_int (inject_Z bins * 0.80).

(** [range(a, a + n)]. *)
Fixpoint range_from (a : Z) (n : nat) : list Z :=
  match n with
  | O => []
  | S n' => a :: range_from (a + 1) n'
  end.

Definition range (a b : Z) : list Z := range_from a (Z.to_nat (b - a)).

(** The loop state is [(gaps, current_gap_start)]; -1 means no open gap. *)
Definition scan_step (dm : list bool) (st : list (Z * Z) * Z) (i : Z)
  : list (Z * Z) * Z :=
  let '(gaps, current_gap_start) := st in
  if negb (occupied dm i) then
    if (current_gap_start =? -1)%Z then (gaps, i) else (gaps, current_gap_start)
  else
    if negb (current_gap_start =? -1)%Z
    then (gaps ++ [(current_gap_start, i)], (-1)%Z)
    else (gaps, current_gap_start).

Definition find_gaps (dm : list bool) : list (Z * Z) :=
  let '(gaps, current_gap_start) :=
    fold_left (scan_step dm) (range search_start search_end) ([], (-1)%Z) in
  if negb (current_gap_start =? -1)%Z
  then gaps ++ [(current_gap_start, search_end)]
  else gaps.

Definition gap_width (g : Z * Z) : Z := (snd g - fst g)%Z.

(** [max(gaps, key=...)] over a non-empty list: the first widest gap. *)
Definition widest (g : Z * Z) (gs : list (Z * Z)) : Z * Z :=
  fold_left
    (fun best x => if (gap_width best <? gap_width x)%Z then x else best)
    gs g.

(** Step 5: from the histogram to the answer. *)
Definition split_of_gaps (gaps : list (Z * Z)) (page_width : Q) : option Q :=
  match gaps with
  | [] => None
  | g :: gs =>
      let widest_gap := widest g gs in
      let gap_width_bins := gap_width widest_gap in
      if Qltb (inject_Z bins * 0.02) (inject_Z gap_width_bins) then
        let center_bin :=
          inject_Z (fst widest_gap) + inject_Z gap_width_bins / 2 in
        Some ((center_bin / inject_Z bins) * page_width)
      else None
  end.

Definition find_split_x (boxes : list Box) (page_width page_height : Q)
  : pyres (option Q) :=
  dm <- density_map boxes page_width page_height ;;
  Ret (split_of_gaps (find_gaps dm) page_width).

(** ** LayoutEngine.process_page: line clustering *)

Definition overlap_ratio (last item : Box) : Q :=
  let min_y := py_max2 (y0 last) (y0 item) in
  let max_y := py_min2 (y1 last) (y1 item) in
  let overlap_h := py_max2 0 (max_y - min_y) in
  let min_h := py_min2 (height last) (height item) in
  if Qltb 0 min_h then overlap_h / min_h else 0.

Definition h_gap (last item : Box) : Q := x0 item - x1 last.

(** [if split_x:] is false for [None] and for the coordinate 0. *)
Definition line_crosses_barrier (split_x : option Q) (last item : Box) : bool :=
  match split_x with
  | Some s =>
      if truthy s then
        let buff := 5 in
        let is_left_last := Qltb (x1 last) (s + buff) in
        let is_right_item := Qltb (s - buff) (x0 item) in
        let is_right_last := Qltb (s - buff) (x0 last) in
        let is_left_item := Qltb (x1 item) (s + buff) in
        (is_left_last && is_right_item) || (is_right_last && is_left_item)
      else false
  | None => false
  end.

Definition line_merge (split_x : option Q) (last item : Box) : bool :=
  Qltb 0.4 (overlap_ratio last item)
  && Qltb (h_gap last item) 50
  && negb (line_crosses_barrier split_x last item).

(** [current_line[-1]] when the list is not empty. *)
Definition last_of {A : Type} (l : list A) : option A :=
  match l with
  | [] => None
  | x :: l' => Some (last l' x)
  end.

(** One iteration of the loop over the sorted fragments; the state is
    [(lines, current_line)]. *)
Definition line_step (split_x : option Q) (st : list Item * list Item)
  (item : Item) : list Item * list Item :=
  let '(lines, current_line) := st in
  match last_of current_line with
  | None => (lines, current_line ++ [item])
  | Some last =>
      if line_merge split_x (box last) (box item)
      then (lines, current_line ++ [item])
      else (lines ++ [_merge_items current_line " "], [item])
  end.

(** Step 2 of [process_page]: sort by [y0], cluster, flush. *)
Definition cluster_lines (raw_items : list Item) (split_x : option Q)
  : list Item :=
  let sorted := sort_by (fun i => y0 (box i)) raw_items in
  let '(lines, current_line) := fold_left (line_step split_x) sorted ([], []) in
  match current_line with
  | [] => lines
  | _ => lines ++ [_merge_items current_line " "]
  end.

(** ** LayoutEngine._cluster_vertical *)

Definition global_avg_h (lines : list Item) : Q :=
  match lines with
  | [] => 20
  | _ => py_sum (map (fun l => height (box l)) lines)
         / inject_Z (Z.of_nat (List.length lines))
  end.

Definition v_gap (last_line line : Box) : Q := y0 line - y1 last_line.

Definition dominant_h (last_line line : Box) : Q :=
  py_max2 (height last_line) (height line).

Definition multiplier (avg : Q) (last_line line : Box) : Q :=
  if Qltb (dominant_h last_line line) avg then 1.5 else 2.0.

Definition threshold (avg : Q) (last_line line : Box) : Q :=
  py_max2 (dominant_h last_line line * multiplier avg last_line line) 5.0.

Definition is_close (avg : Q) (last_line line : Box) : bool :=
  Qltb (v_gap last_line line) (threshold avg last_line line).

Definition is_aligned (last_line line : Box) : bool :=
  let left_diff := Qabs (x0 line - x0 last_line) in
  let right_diff := Qabs (x1 line - x1 last_line) in
  Qltb left_diff 80 || Qltb right_diff 80.

Definition center (b : Box) : Q := x0 b + (x1 b - x0 b) / 2.

Definition side (b : Box) (s : Q) : string :=
  if Qltb (center b) s then "L"%string else "R"%string.

Definition block_crosses_barrier (split_x : option Q)
  (current_block_lines : list Item) (line : Item) : bool :=
  match split_x with
  | Some s =>
      if truthy s then
        let block_box := merge_boxes (map box current_block_lines) in
        negb (String.eqb (side block_box s) (side (box line) s))
      else false
  | None => false
  end.

Definition block_merge (avg : Q) (split_x : option Q)
  (current_block_lines : list Item) (last_line line : Item) : bool :=
  is_close avg (box last_line) (box line)
  && is_aligned (box last_line) (box line)
  && negb (block_crosses_barrier split_x current_block_lines line).

(** One iteration of the loop over the sorted lines; the state is
    [(blocks, current_block_lines)]. *)
Definition block_step (avg : Q) (split_x : option Q)
  (st : list Item * list Item) (line : Item) : list Item * list Item :=
  let '(blocks, current_block_lines) := st in
  match last_of current_block_lines with
  | None => (blocks, current_block_lines ++ [line])
  | Some last_line =>
      if block_merge avg split_x current_block_lines last_line line
      then (blocks, current_block_lines ++ [line])
      else (blocks ++ [_merge_items current_block_lines newline], [line])
  end.

Definition _cluster_vertical (lines : list Item) (split_x : option Q)
  : list Item :=
  match lines with
  | [] => []
  | _ =>
      let sorted := sort_by (fun l => y0 (box l)) lines in
      let avg := global_avg_h sorted in
      let '(blocks, current_block_lines) :=
        fold_left (block_step avg split_x) sorted ([], []) in
      match current_block_lines with
      | [] => blocks
      | _ => blocks ++ [_merge_items current_block_lines newline]
      end
  end.

(** ** LayoutEngine.process_page *)

Definition process_page (raw_items : list Item) (page_width page_height : Q)
  : pyres (list Item * option Q) :=
  match raw_items with
  | [] => Ret ([], None)
  | _ =>
      split_x <- find_split_x (map box raw_items) page_width page_height ;;
      let lines := cluster_lines raw_items split_x in
      Ret (_cluster_vertical lines split_x, split_x)
  end.

(** ** Gaps of the histogram, as the specification describes them

    A gap is a maximal run [a, b) of unoccupied bins inside the search
    window: it cannot be extended to the left or to the right without
    leaving the window or meeting an occupied bin. *)

Definition run_free (dm : list bool) (a b : Z) : Prop :=
  forall i, (a <= i < b)%Z -> occupied dm i = false.

Definition left_closed (dm : list bool) (a : Z) : Prop :=
  a = search_start \/ occupied dm (a - 1) = true.

Definition right_closed (dm : list bool) (b : Z) : Prop :=
  b = search_end \/ occupied dm b = true.

Definition maximal_run (dm : list bool) (a b : Z) : Prop :=
  (search_start <= a < b)%Z /\ (b <= search_end)%Z
  /\ run_free dm a b /\ left_closed dm a /\ right_closed dm b.

(** The widest gap; among gaps of the same width, the leftmost. *)
Definition widest_run (dm : list bool) (a b : Z) : Prop :=
  maximal_run dm a b
  /\ forall a' b', maximal_run dm a' b' ->
       (b' - a' < b - a \/ (b' - a' = b - a /\ a <= a'))%Z.

(** The page coordinate of the middle of the gap [a, b). *)
Definition gap_center (a b : Z) (page_width : Q) : Q :=
  (inject_Z a + inject_Z (b - a) / 2) / inject_Z bins * page_width.

(** A gap that was closed by an occupied bin before bin [k]. *)
Definition closed_before (dm : list bool) (k a b : Z) : Prop :=
  (search_start <= a < b)%Z /\ (b < k)%Z
  /\ run_free dm a b /\ left_closed dm a /\ occupied dm b = true.

(** What holds of the scan's [(gaps, current_gap_start)] when bin [k] is
    the next one to be read. *)
Definition scan_inv (dm : list bool) (k : Z) (st : list (Z * Z) * Z) : Prop :=
  let '(gaps, cur) := st in
  (forall a b, In (a, b) gaps <-> closed_before dm k a b)
  /\ StronglySorted (fun g h => (fst g < fst h)%Z) gaps
  /\ ((cur = (-1)%Z /\ (k = search_start \/ occupied dm (k - 1) = true))
      \/ ((search_start <= cur < k)%Z /\ run_free dm cur k
          /\ left_closed dm cur)).

(** ** Which fragments make up a Line, which Lines a Block

    The dicts returned by the engine keep the joined text and the union box
    only.  To speak of the constituents of a Line or Block the two loops are
    read once more, keeping each group instead of merging it. *)

Section Segments.
Context {A : Type} (ok : list A -> A -> bool).

(** The groups formed from [xs] when [cur] is the group being grown:
    [ok cur x] says that [x] joins [cur]. *)
Fixpoint segments_from (cur : list A) (xs : list A) : list (list A) :=
  match xs with
  | [] => match cur with [] => [] | _ => [cur] end
  | x :: xs' =>
      match cur with
      | [] => segments_from [x] xs'
      | _ => if ok cur x then segments_from (cur ++ [x]) xs'
             else cur :: segments_from [x] xs'
      end
  end.

Definition segments (xs : list A) : list (list A) := segments_from [] xs.
End Segments.


(** The test of the block loop, on the group being grown. *)
Definition block_ok (avg : Q) (split_x : option Q)
  (current_block_lines : list Item) (line : Item) : bool :=
  match last_of current_block_lines with
  | Some last_line => block_merge avg split_x current_block_lines last_line line
  | None => true
  end.


(** The Lines of each Block, in the order of [_cluster_vertical]. *)
Definition block_groups (lines : list Item) (split_x : option Q)
  : list (list Item) :=
  let sorted := sort_by (fun l => y0 (box l)) lines in
  segments (block_ok (global_avg_h sorted) split_x) sorted.

(** Cut a list into consecutive pieces of the given lengths. *)
Fixpoint regroup {A : Type} (lens : list nat) (l : list A) : list (list A) :=
  match lens with
  | [] => []
  | n :: lens' => firstn n l :: regroup lens' (skipn n l)
  end.


(** ** The merge rules, in the words of the specification *)

(** The block rule: the vertical gap is below [max(dominant_height *
    multiplier, 5.0)], the multiplier being 1.5 when the dominant height is
    below the average and 2.0 otherwise. *)
Definition spec_threshold (avg : Q) (prev cur : Box) : Q :=
  let dominant_height := Qmax (height prev) (height cur) in
  let m := if Qlt_le_dec dominant_height avg then 1.5 else 2.0 in
  Qmax (dominant_height * m) 5.0.

Definition spec_is_close (avg : Q) (prev cur : Box) : Prop :=
  y0 cur - y1 prev < spec_threshold avg prev cur.

Definition spec_is_aligned (prev cur : Box) : Prop :=
  Qabs (x0 cur - x0 prev) < 80 \/ Qabs (x1 cur - x1 prev) < 80.

(** Two boxes have their horizontal centers on the same side of [s]:
    both left of it, or both at or right of it. *)
Definition spec_same_side (s : Q) (a b : Box) : Prop :=
  (x0 a + x1 a) / 2 < s <-> (x0 b + x1 b) / 2 < s.

(** ** The barrier *)

(** Boxes [a] and [c] lie on opposite sides of the split [s], beyond the
    tolerance [buff]: [a] wholly to the left, [c] wholly to the right. *)
Definition separated (s buff : Q) (a c : Box) : Prop :=
  x1 a < s - buff /\ s + buff < x0 c.


(** What the block loop keeps true of a group when a split is set: every
    Line is on the side of the group's union box. *)
Definition same_side_group (s : Q) (g : list Item) : Prop :=
  forall l, In l g -> side (box l) s = side (merge_boxes (map box g)) s.

(** ** Sample pages *)

Definition frag (t : string) (a b c d : Z) : Item :=
  mkItem t (mkBox (inject_Z a) (inject_Z b) (inject_Z c) (inject_Z d)).

(** A wide fragment between two narrow ones, on a page 512 wide and 800
    high. *)
Definition page_abc : list Item :=
  [frag "A" 128 200 192 220; frag "B" 8 201 504 221; frag "C" 320 202 384 222].

(** Two fragments one below the other, the upper one indented. *)
Definition page_indent : list Item :=
  [frag "first" 20 200 100 210; frag "second" 10 212 100 222].

(** The newline-joined text the specification asks of a Block: the Lines'
    texts in the order in which they were merged. *)
Definition spec_block_text (lines : list Item) : string :=
  String.concat newline (map text lines).


(** * The rest of the program *)

(** ** The bins a box marks (main_3.py, find_split_x, step 3) *)


Definition box_stop (page_width : Q) (b : Box) : Z :=
  Z.min bins (py_int (x1 b / page_width * inject_Z bins)).


(** ** Counting Lines *)



(** ** main (main_3.py): the outline color of a block *)

Definition block_color (split_x : option Q) (b : Box) : string :=
  match split_x with
  | Some s =>
      if truthy s then
        let center_x := x0 b + (x1 b - x0 b) / 2 in
        if Qltb center_x s then "blue"%string
        else if Qltb s center_x then "green"%string
        else "red"%string
      else "red"%string
  | None => "red"%string
  end.

(** ** perform_ocr (main_3.py): from an observation to a fragment

    The recognizer is outside the program.  What it hands back is a list of
    observations, each a text and a bounding box normalized to the unit
    square with the origin at the bottom left. *)

Record Observation : Type := mkObservation {
  obs_text : string;
  origin_x : Q;
  origin_y : Q;
  size_width : Q;
  size_height : Q
}.



(** ** calculate_split_x (main_2.py)

    The earlier detector: observations in normalized coordinates, a
    histogram of 100 counters, and the longest gap tracked while
    scanning. *)



(** [density_map[i] += 1].  The index is always one of 0..99 here: the
    range starts at 0 or above and the guard keeps [i] below 100. *)
Fixpoint incr_at (n : nat) (dm : list Z) : list Z :=
  match dm with
  | [] => []
  | v :: dm' =>
      match n with
      | O => (v + 1)%Z :: dm'
      | S n' => v :: incr_at n' dm'
      end
  end.

Definition count_step (dm : list Z) (i : Z) : list Z :=
  if (i <? 100)%Z then incr_at (Z.to_nat i) dm else dm.



(** [density_map[i]]. *)
Definition count_at (dm : list Z) (i : Z) : Z := nth (Z.to_nat i) dm 0%Z.












(** ** More samples *)


(** * Floating point

    Python's floats are IEEE 754 doubles.  A true division, and a product, a
    sum or a difference with a float operand, returns the exact result
    rounded to the nearest double.  The definitions of this part are the
    program with each such operation rounded.  The rounding is a parameter
    [rnd], so that what is proved of them holds of the rounding the machine
    performs, whichever it is.  [round_double] is the rounding of doubles: it
    evaluates the program on a page.  It keeps the order of numbers and
    leaves doubles, among them ints of at most 53 bits, as they are
    ([round_double_mono], [round_double_idem], [round_double_int]).

    The numbers are those the program meets: coordinates and page sizes are
    ints below 2^53 in magnitude, which a double holds exactly, observations
    are doubles, and no operation overflows. *)

(** ** Rounding to a double *)

(** Nearest integer to [num / den], ties to even, for [0 <= num] and
    [0 < den]. *)
Definition round_half_even (num den : Z) : Z :=
  let m := (num / den)%Z in
  let r := (num mod den)%Z in
  match (2 * r ?= den)%Z with
  | Lt => m
  | Gt => (m + 1)%Z
  | Eq => if Z.even m then m else (m + 1)%Z
  end.

(** [n / d * 2^(-e)] as a fraction, for positive [n] and [d]. *)
Definition scale2 (n d e : Z) : Z * Z :=
  if (0 <=? e)%Z then (n, (d * 2 ^ e)%Z) else ((n * 2 ^ (- e))%Z, d).

(** The exponent of the last place of the double nearest to [n / d]: the
    [e] with [2^52 <= n / d * 2^(-e) < 2^53], and -1074 for subnormals. *)
Definition ulp_exponent (n d : Z) : Z :=
  let k := (Z.log2 n - Z.log2 d)%Z in
  let '(num, den) := scale2 n d k in
  let p := if (den <=? num)%Z then k else (k - 1)%Z in
  Z.max (p - 52) (-1074).

Definition round_pos (n d : Z) : Q :=
  let e := ulp_exponent n d in
  let '(num, den) := scale2 n d e in
  let m := round_half_even num den in
  if (0 <=? e)%Z then inject_Z (m * 2 ^ e)
  else Qred (Qmake m (Z.to_pos (2 ^ (- e)))).

(** The double nearest to [q]: round to nearest, ties to even. *)
Definition round_double (q : Q) : Q :=
  match Qnum q with
  | Z0 => 0
  | Zpos n => round_pos (Zpos n) (Zpos (Qden q))
  | Zneg n => - round_pos (Zpos n) (Zpos (Qden q))
  end.

Section Rounded.
Variable rnd : Q -> Q.

(** ** ColumnDetector.find_split_x in floating point

    [bins * 0.20], [bins * 0.80] and [bins * 0.02] do not depend on the
    page; in doubles they are 80.0, 320.0 and 8.0, the values the exact
    products have.  [search_start], [search_end], [find_gaps] and [widest]
    work on ints and are those of the first part. *)

(** [a / b] on numbers: the quotient, rounded. *)
Definition py_div_fl (a b : Q) : pyres Q :=
  if Qeq_bool b 0 then Raise ZeroDivisionError else Ret (rnd (a / b)).

(** Step 2.  [0.15] and [0.85] are the doubles nearest to these decimals. *)
Definition keep_box_fl (page_width page_height : Q) (b : Box) : bool :=
  negb (Qltb (y0 b) (rnd (page_height * rnd 0.15)))
  && negb (Qltb (rnd (page_width * rnd 0.85)) (x1 b - x0 b)).

Definition valid_boxes_fl (boxes : list Box) (page_width page_height : Q)
  : list Box :=
  match filter (keep_box_fl page_width page_height) boxes with
  | [] => boxes
  | vs => vs
  end.

(** Step 3: [int((box[0] / page_width) * bins)] rounds the quotient, then
    the product, then truncates. *)
Definition mark_box_fl (page_width : Q) (dm : list bool) (b : Box)
  : pyres (list bool) :=
  r0 <- py_div_fl (x0 b) page_width ;;
  let start := Z.max 0 (py_int (rnd (r0 * inject_Z bins))) in
  r1 <- py_div_fl (x1 b) page_width ;;
  let stop := Z.min bins (py_int (rnd (r1 * inject_Z bins))) in
  Ret (slice_fill dm start stop).

Fixpoint build_histogram_fl (page_width : Q) (dm : list bool) (bs : list Box)
  : pyres (list bool) :=
  match bs with
  | [] => Ret dm
  | b :: bs' =>
      dm' <- mark_box_fl page_width dm b ;;
      build_histogram_fl page_width dm' bs'
  end.

Definition density_map_fl (boxes : list Box) (page_width page_height : Q)
  : pyres (list bool) :=
  build_histogram_fl page_width zeros
    (valid_boxes_fl boxes page_width page_height).

(** Step 5.  [gap_width_bins / 2], the sum with [widest_gap[0]], the
    division by [bins] and the product with [page_width] are four float
    operations. *)
Definition split_of_gaps_fl (gaps : list (Z * Z)) (page_width : Q)
  : option Q :=
  match gaps with
  | [] => None
  | g :: gs =>
      let widest_gap := widest g gs in
      let gap_width_bins := gap_width widest_gap in
      if Qltb (inject_Z bins * 0.02) (inject_Z gap_width_bins) then
        let center_bin :=
          rnd (inject_Z (fst widest_gap) + rnd (inject_Z gap_width_bins / 2)) in
        Some (rnd (rnd (center_bin / inject_Z bins) * page_width))
      else None
  end.

Definition find_split_x_fl (boxes : list Box) (page_width page_height : Q)
  : pyres (option Q) :=
  dm <- density_map_fl boxes page_width page_height ;;
  Ret (split_of_gaps_fl (find_gaps dm) page_width).

(** The slice [start:stop] that a box assigns on a page of non-zero width,
    as integers, and the bins inside it. *)
Definition box_start_fl (page_width : Q) (b : Box) : Z :=
  Z.max 0 (py_int (rnd (rnd (x0 b / page_width) * inject_Z bins))).

Definition box_stop_fl (page_width : Q) (b : Box) : Z :=
  Z.min bins (py_int (rnd (rnd (x1 b / page_width) * inject_Z bins))).

Definition marks_fl (page_width : Q) (b : Box) (i : Z) : Prop :=
  (slice_index bins (box_start_fl page_width b) <= i
   < slice_index bins (box_stop_fl page_width b))%Z.

(** ** LayoutEngine.process_page in floating point

    The heights, the overlap and the horizontal gap are differences of
    ints.  [overlap_h / min_h] is a true division, [0.4] is the double
    nearest to that decimal, and [split_x + buff] and [split_x - buff] are
    sums of a float and an int. *)

Definition overlap_ratio_fl (last item : Box) : Q :=
  let min_y := py_max2 (y0 last) (y0 item) in
  let max_y := py_min2 (y1 last) (y1 item) in
  let overlap_h := py_max2 0 (max_y - min_y) in
  let min_h := py_min2 (height last) (height item) in
  if Qltb 0 min_h then rnd (overlap_h / min_h) else 0.

Definition line_crosses_barrier_fl (split_x : option Q) (last item : Box)
  : bool :=
  match split_x with
  | Some s =>
      if truthy s then
        let buff := 5 in
        let is_left_last := Qltb (x1 last) (rnd (s + buff)) in
        let is_right_item := Qltb (rnd (s - buff)) (x0 item) in
        let is_right_last := Qltb (rnd (s - buff)) (x0 last) in
        let is_left_item := Qltb (x1 item) (rnd (s + buff)) in
        (is_left_last && is_right_item) || (is_right_last && is_left_item)
      else false
  | None => false
  end.

Definition line_merge_fl (split_x : option Q) (last item : Box) : bool :=
  Qltb (rnd 0.4) (overlap_ratio_fl last item)
  && Qltb (h_gap last item) 50
  && negb (line_crosses_barrier_fl split_x last item).

Definition line_step_fl (split_x : option Q) (st : list Item * list Item)
  (item : Item) : list Item * list Item :=
  let '(lines, current_line) := st in
  match last_of current_line with
  | None => (lines, current_line ++ [item])
  | Some last =>
      if line_merge_fl split_x (box last) (box item)
      then (lines, current_line ++ [item])
      else (lines ++ [_merge_items current_line " "], [item])
  end.

Definition cluster_lines_fl (raw_items : list Item) (split_x : option Q)
  : list Item :=
  let sorted := sort_by (fun i => y0 (box i)) raw_items in
  let '(lines, current_line) :=
    fold_left (line_step_fl split_x) sorted ([], []) in
  match current_line with
  | [] => lines
  | _ => lines ++ [_merge_items current_line " "]
  end.

(** The block loop compares heights, gaps and centers of boxes with int
    coordinates; it is [_cluster_vertical] of the first part. *)
Definition process_page_fl (raw_items : list Item) (page_width page_height : Q)
  : pyres (list Item * option Q) :=
  match raw_items with
  | [] => Ret ([], None)
  | _ =>
      split_x <- find_split_x_fl (map box raw_items) page_width page_height ;;
      let lines := cluster_lines_fl raw_items split_x in
      Ret (_cluster_vertical lines split_x, split_x)
  end.

(** The fragments of each Line and the Lines of each Block, as in the first
    part. *)
Definition line_ok_fl (split_x : option Q) (current_line : list Item)
  (item : Item) : bool :=
  match last_of current_line with
  | Some last => line_merge_fl split_x (box last) (box item)
  | None => true
  end.

Definition line_groups_fl (raw_items : list Item) (split_x : option Q)
  : list (list Item) :=
  segments (line_ok_fl split_x) (sort_by (fun i => y0 (box i)) raw_items).

Definition page_structure_fl (raw_items : list Item) (split_x : option Q)
  : list (list (list Item)) :=
  regroup
    (map (@List.length Item)
         (block_groups (cluster_lines_fl raw_items split_x) split_x))
    (line_groups_fl raw_items split_x).




(** ** calculate_split_x (main_2.py) in floating point

    The observation's [origin.x] and [size.width] are doubles:
    [origin.x * 100] is one float operation, [(origin.x + size.width) * 100]
    is two. *)

Definition obs_start_fl (obs : Observation) : Z :=
  Z.max 0 (py_int (rnd (origin_x obs * 100))).

Definition obs_stop_fl (obs : Observation) : Z :=
  Z.min 100 (py_int (rnd (rnd (origin_x obs + size_width obs) * 100))).

Definition add_observation_fl (dm : list Z) (obs : Observation) : list Z :=
  fold_left count_step (range (obs_start_fl obs) (obs_stop_fl obs)) dm.

Definition counts_fl (observations : list Observation) : list Z :=
  fold_left add_observation_fl observations (repeat 0%Z 100).

(** The observations that cover bin [k]. *)
Definition covering_fl (k : Z) (observations : list Observation)
  : list Observation :=
  filter (fun obs => ((obs_start_fl obs <=? k) && (k <? obs_stop_fl obs))%Z)
         observations.

(** ** annotate_pdf (main.py) in floating point: where a box is drawn

    [fitz.Rect(x0, y0, x1, y1)] is read as a box.  [bbox_norm] is the
    recognizer's [x, y, width, height] in the unit square, origin at the
    bottom left; the page is [pdf_w] by [pdf_h] points, origin at the top
    left.  All of them are floats. *)

Definition pdf_rect_fl (pdf_w pdf_h : Q) (bbox_norm : Q * Q * Q * Q) : Box :=
  let '(vx, vy, vw, vh) := bbox_norm in
  let box_w := rnd (vw * pdf_w) in
  let box_h := rnd (vh * pdf_h) in
  let x_left := rnd (vx * pdf_w) in
  let y_top := rnd (pdf_h * rnd (1.0 - rnd (vy + vh))) in
  mkBox x_left y_top (rnd (x_left + box_w)) (rnd (y_top + box_h)).

End Rounded.

(** ** The band around the split *)


(** A box that covers the whole band. *)
Definition spans_band (lo hi : Q) (b : Box) : Prop :=
  x0 b <= lo /\ hi <= x1 b.



(** ** Pages for the rounded program *)

(** A page 3000 wide and 2250 high.  Two fragments of the body leave bins
    126..145 free, so the middle of the widest gap is at bin 136; two words
    of the header stand 30 units apart on either side of it. *)
Definition page_wide : list Item :=
  [frag "A" 900 100 1000 120; frag "C" 1030 100 1100 120;
   frag "left" 300 1000 950 1020; frag "right" 1098 1000 2700 1020].

(** Three fragments in a row on the same page; the one in the middle ends
    at 1025. *)
Definition page_row : list Item :=
  [frag "A" 800 200 880 220; frag "f" 890 200 1025 220;
   frag "C" 1040 200 1100 220].

(** Two boxes that leave bins 214..233 free on a page 2550 wide and 3300
    high. *)
Definition page_letter : list Box :=
  [mkBox 300 600 1365 620; mkBox 1492 600 2300 620].

(** The split of a page 3000 wide whose widest gap has its middle at bin
    136: the double next above 1020. *)
Definition split_3000 : Q := round_double (round_double (136 / 400) * 3000).

(** A box whose right edge is 29 units left of a page 100 wide. *)
Definition box_off_page : Box := mkBox (-30) 0 (-29) 10.

(** Two observations whose coordinates are doubles: the second starts at
    the double nearest to 0.3, which is below 0.3. *)
Definition two_columns_fl : list Observation :=
  [mkObservation "left" (round_double (5 # 100)) (1 # 2)
                 (round_double (2 # 10)) (round_double (1 # 20));
   mkObservation "right" (round_double (3 # 10)) (1 # 2)
                 (round_double (3 # 10)) (round_double (1 # 20))].

(** ** Proof steps *)


(** * Properties *)

(** ** Comparisons and the builtins *)

Lemma Qltb_lt (a b : Q) : Qltb a b = true <-> a < b.
Proof.
  unfold Qltb. rewrite negb_true_iff. split; intro H.
  - apply Qnot_le_lt. intro Hle. apply Qle_bool_iff in Hle. congruence.
  - destruct (Qle_bool b a) eqn:E; [|reflexivity].
    apply Qle_bool_iff in E. exfalso. exact (Qlt_not_le _ _ H E).
Qed.

Lemma Qltb_ge (a b : Q) : Qltb a b = false <-> b <= a.
Proof.
  unfold Qltb. rewrite negb_false_iff. apply Qle_bool_iff.
Qed.

Lemma Qltb_spec (a b : Q) : reflect (a < b) (Qltb a b).
Proof.
  destruct (Qltb a b) eqn:E; constructor.
  - now apply Qltb_lt.
  - apply Qltb_ge in E. now apply Qle_not_lt.
Qed.

Lemma py_min2_cases (a b : Q) :
  (py_min2 a b = a /\ a <= b) \/ (py_min2 a b = b /\ b < a).
Proof.
  unfold py_min2. destruct (Qltb_spec b a); [right | left]; split; auto.
  now apply Qnot_lt_le.
Qed.

Lemma py_max2_cases (a b : Q) :
  (py_max2 a b = a /\ b <= a) \/ (py_max2 a b = b /\ a < b).
Proof.
  unfold py_max2. destruct (Qltb_spec a b); [right | left]; split; auto.
  now apply Qnot_lt_le.
Qed.

Lemma py_min_spec (xs : list Q) : forall x,
  In (py_min x xs) (x :: xs) /\ forall y, In y (x :: xs) -> py_min x xs <= y.
Proof.
  unfold py_min. induction xs as [|z xs IH]; intro x; simpl.
  - split; [now left|]. intros y [<-|[]]. apply Qle_refl.
  - destruct (IH (py_min2 x z)) as [Hin Hle]. split.
    + destruct Hin as [Hin|Hin]; [|right; right; exact Hin].
      destruct (py_min2_cases x z) as [[E _]|[E _]]; [left | right; left];
        (etransitivity; [symmetry; exact E | exact Hin]).
    + intros y Hy.
      assert (Hx : fold_left py_min2 xs (py_min2 x z) <= py_min2 x z)
        by (apply Hle; now left).
      destruct Hy as [<-|[<-|Hy]].
      * eapply Qle_trans; [exact Hx|].
        destruct (py_min2_cases x z) as [[E ?]|[E ?]]; rewrite E;
          [apply Qle_refl | now apply Qlt_le_weak].
      * eapply Qle_trans; [exact Hx|].
        destruct (py_min2_cases x z) as [[E ?]|[E ?]]; rewrite E;
          [assumption | apply Qle_refl].
      * apply Hle. now right.
Qed.

Lemma py_max_spec (xs : list Q) : forall x,
  In (py_max x xs) (x :: xs) /\ forall y, In y (x :: xs) -> y <= py_max x xs.
Proof.
  unfold py_max. induction xs as [|z xs IH]; intro x; simpl.
  - split; [now left|]. intros y [<-|[]]. apply Qle_refl.
  - destruct (IH (py_max2 x z)) as [Hin Hle]. split.
    + destruct Hin as [Hin|Hin]; [|right; right; exact Hin].
      destruct (py_max2_cases x z) as [[E _]|[E _]]; [left | right; left];
        (etransitivity; [symmetry; exact E | exact Hin]).
    + intros y Hy.
      assert (Hx : py_max2 x z <= fold_left py_max2 xs (py_max2 x z))
        by (apply Hle; now left).
      destruct Hy as [<-|[<-|Hy]].
      * eapply Qle_trans; [|exact Hx].
        destruct (py_max2_cases x z) as [[E ?]|[E ?]]; rewrite E;
          [apply Qle_refl | now apply Qlt_le_weak].
      * eapply Qle_trans; [|exact Hx].
        destruct (py_max2_cases x z) as [[E ?]|[E ?]]; rewrite E;
          [assumption | apply Qle_refl].
      * apply Hle. now right.
Qed.

(** ** Union of boxes *)

Lemma merged_box_union
  (i : Item) (items : list Item) (join_char : string) :
  let bs := map box (i :: items) in
  let r := box (_merge_items (i :: items) join_char) in
  r = merge_boxes bs
  /\ (In (x0 r) (map x0 bs) /\ forall c, In c bs -> x0 r <= x0 c)
  /\ (In (y0 r) (map y0 bs) /\ forall c, In c bs -> y0 r <= y0 c)
  /\ (In (x1 r) (map x1 bs) /\ forall c, In c bs -> x1 c <= x1 r)
  /\ (In (y1 r) (map y1 bs) /\ forall c, In c bs -> y1 c <= y1 r).
Proof.
  cbv zeta. split; [reflexivity|].
  unfold _merge_items. cbn [box map merge_boxes x0 y0 x1 y1].
  repeat split.
  - apply (py_min_spec (map x0 (map box items))).
  - intros c Hc. apply (py_min_spec (map x0 (map box items))).
    change (In (x0 c) (map x0 (box i :: map box items))). now apply in_map.
  - apply (py_min_spec (map y0 (map box items))).
  - intros c Hc. apply (py_min_spec (map y0 (map box items))).
    change (In (y0 c) (map y0 (box i :: map box items))). now apply in_map.
  - apply (py_max_spec (map x1 (map box items))).
  - intros c Hc. apply (py_max_spec (map x1 (map box items))).
    change (In (x1 c) (map x1 (box i :: map box items))). now apply in_map.
  - apply (py_max_spec (map y1 (map box items))).
  - intros c Hc. apply (py_max_spec (map y1 (map box items))).
    change (In (y1 c) (map y1 (box i :: map box items))). now apply in_map.
Qed.

(** C7.  The box of a Line or Block merged from a non-empty list of
    constituents is their union: its [x0] is the least [x0] of a constituent,
    its [y0] the least [y0], its [x1] the greatest [x1] and its [y1] the
    greatest [y1]; so no constituent reaches outside it on any side. *)
Theorem merged_box_is_union
  (i : Item) (items : list Item) (join_char : string) :
  let bs := map box (i :: items) in
  let r := box (_merge_items (i :: items) join_char) in
  r = merge_boxes bs
  /\ (In (x0 r) (map x0 bs) /\ forall c, In c bs -> x0 r <= x0 c)
  /\ (In (y0 r) (map y0 bs) /\ forall c, In c bs -> y0 r <= y0 c)
  /\ (In (x1 r) (map x1 bs) /\ forall c, In c bs -> x1 c <= x1 r)
  /\ (In (y1 r) (map y1 bs) /\ forall c, In c bs -> y1 c <= y1 r).
Proof.
  apply merged_box_union.
Qed.

(** ** The scan for gaps *)

Lemma search_start_eq : search_start = 80%Z.
Proof. reflexivity. Qed.

Lemma search_end_eq : search_end = 320%Z.
Proof. reflexivity. Qed.

Section Scan.
Variable dm : list bool.

Lemma run_start_unique (a a' b : Z) :
  (a < b)%Z -> (a' < b)%Z -> (search_start <= a)%Z -> (search_start <= a')%Z ->
  run_free dm a b -> run_free dm a' b ->
  left_closed dm a -> left_closed dm a' -> a = a'.
Proof.
  intros Hab Ha'b Hs Hs' Hf Hf' Hl Hl'.
  destruct (Z.lt_trichotomy a a') as [Hlt|[Heq|Hgt]]; [|exact Heq|]; exfalso.
  - destruct Hl' as [->|Hocc]; [lia|].
    rewrite (Hf (a' - 1)%Z) in Hocc by lia. discriminate.
  - destruct Hl as [->|Hocc]; [lia|].
    rewrite (Hf' (a - 1)%Z) in Hocc by lia. discriminate.
Qed.

Lemma StronglySorted_snoc {A : Type} (R : A -> A -> Prop) (l : list A) (x : A) :
  StronglySorted R l -> (forall y, In y l -> R y x) ->
  StronglySorted R (l ++ [x]).
Proof.
  induction 1 as [|y l Hs IH Hall]; intro Hx; simpl.
  - repeat constructor.
  - constructor.
    + apply IH. intros z Hz. apply Hx. now right.
    + apply Forall_app. split; [exact Hall|].
      constructor; [|constructor]. apply Hx. now left.
Qed.

Lemma scan_step_inv (k : Z) (st : list (Z * Z) * Z) :
  (search_start <= k)%Z -> scan_inv dm k st ->
  scan_inv dm (k + 1) (scan_step dm st k).
Proof.
  pose proof search_start_eq as Hss.
  destruct st as [gaps cur]. intros Hk (Hin & Hsort & Hcur).
  unfold scan_step.
  destruct (occupied dm k) eqn:Hocc; cbn [negb].
  - (* bin [k] is occupied *)
    destruct (Z.eqb_spec cur (-1)) as [->|Hne]; cbn [negb].
    + destruct Hcur as [[_ Hprev]|[Hr _]]; [|lia].
      split; [|split; [exact Hsort|]].
      * intros a b. rewrite Hin. unfold closed_before.
        split; intros (H1 & H2 & H3 & H4 & H5); repeat split; try assumption;
          try lia.
        destruct (Z.eq_dec b k) as [->|]; [|lia]. exfalso.
        destruct Hprev as [->|Hprev]; [lia|].
        rewrite (H3 (k - 1)%Z) in Hprev by lia. discriminate.
      * left. split; [reflexivity|]. right.
        now replace (k + 1 - 1)%Z with k by lia.
    + destruct Hcur as [[Hc _]|(Hr & Hfree & Hleft)]; [contradiction|].
      split; [|split].
      * intros a b. rewrite in_app_iff, Hin. unfold closed_before. split.
        -- intros [(H1 & H2 & H3 & H4 & H5)|[E|[]]].
           ++ repeat split; try assumption; lia.
           ++ inversion E; subst a b. repeat split; try assumption; lia.
        -- intros (H1 & H2 & H3 & H4 & H5).
           destruct (Z.eq_dec b k) as [->|].
           ++ right. left. f_equal.
              apply (run_start_unique cur a k); try assumption; lia.
           ++ left. repeat split; try assumption; lia.
      * apply StronglySorted_snoc; [exact Hsort|].
        intros [a b] Hab. apply Hin in Hab.
        destruct Hab as (H1 & H2 & H3 & H4 & H5). cbn [fst].
        destruct (Z.lt_ge_cases a cur) as [|Hge]; [assumption|exfalso].
        rewrite (Hfree b) in H5 by lia. discriminate.
      * left. split; [reflexivity|]. right.
        now replace (k + 1 - 1)%Z with k by lia.
  - (* bin [k] is free *)
    assert (Hgaps : forall a b,
              In (a, b) gaps <-> closed_before dm (k + 1) a b).
    { intros a b. rewrite Hin. unfold closed_before.
      split; intros (H1 & H2 & H3 & H4 & H5); repeat split; try assumption;
        try lia.
      destruct (Z.eq_dec b k) as [->|]; [congruence|lia]. }
    destruct (Z.eqb_spec cur (-1)) as [->|Hne].
    + destruct Hcur as [[_ Hprev]|[Hr _]]; [|lia].
      split; [exact Hgaps|split; [exact Hsort|]].
      right. split; [lia|split].
      * intros i Hi. now replace i with k by lia.
      * exact Hprev.
    + destruct Hcur as [[Hc _]|(Hr & Hfree & Hleft)]; [contradiction|].
      split; [exact Hgaps|split; [exact Hsort|]].
      right. split; [lia|split; [|exact Hleft]].
      intros i Hi. destruct (Z.eq_dec i k) as [->|]; [exact Hocc|].
      apply Hfree. lia.
Qed.

Lemma scan_fold_inv (n : nat) : forall k st,
  (search_start <= k)%Z -> scan_inv dm k st ->
  scan_inv dm (k + Z.of_nat n) (fold_left (scan_step dm) (range_from k n) st).
Proof.
  induction n as [|n IH]; intros k st Hk Hinv.
  - simpl. now replace (k + 0)%Z with k by lia.
  - cbn [range_from fold_left].
    replace (k + Z.of_nat (S n))%Z with (k + 1 + Z.of_nat n)%Z by lia.
    apply IH; [lia|]. now apply scan_step_inv.
Qed.

(** The gaps found are exactly the maximal runs of free bins of the
    window, listed from left to right. *)
Lemma find_gaps_spec :
  (forall a b, In (a, b) (find_gaps dm) <-> maximal_run dm a b)
  /\ StronglySorted (fun g h => (fst g < fst h)%Z) (find_gaps dm).
Proof.
  pose proof search_start_eq as Hss. pose proof search_end_eq as Hse.
  unfold find_gaps, range.
  assert (Hinit : scan_inv dm search_start ([], (-1)%Z)).
  { split; [|split].
    - intros a b. split; [intros []|]. unfold closed_before. lia.
    - constructor.
    - left. auto. }
  pose proof (scan_fold_inv (Z.to_nat (search_end - search_start))
                search_start _ (Z.le_refl _) Hinit) as Hfin.
  replace (search_start + Z.of_nat (Z.to_nat (search_end - search_start)))%Z
    with search_end in Hfin by lia.
  destruct (fold_left _ _ _) as [gaps cur].
  destruct Hfin as (Hin & Hsort & Hcur).
  destruct (Z.eqb_spec cur (-1)) as [->|Hne]; cbn [negb].
  - destruct Hcur as [[_ Hprev]|[Hr _]]; [|lia].
    split; [|exact Hsort].
    intros a b. rewrite Hin. unfold closed_before, maximal_run. split.
    + intros (H1 & H2 & H3 & H4 & H5). repeat split; try assumption; try lia.
      now right.
    + intros (H1 & H2 & H3 & H4 & H5).
      destruct (Z.eq_dec b search_end) as [->|Hb].
      * exfalso. destruct Hprev as [Hprev|Hprev]; [lia|].
        rewrite (H3 (search_end - 1)%Z) in Hprev by lia. discriminate.
      * destruct H5 as [H5|H5]; [contradiction|].
        repeat split; try assumption; lia.
  - destruct Hcur as [[Hc _]|(Hr & Hfree & Hleft)]; [contradiction|].
    split.
    + intros a b. rewrite in_app_iff, Hin. unfold closed_before, maximal_run.
      split.
      * intros [(H1 & H2 & H3 & H4 & H5)|[E|[]]].
        -- repeat split; try assumption; try lia. now right.
        -- inversion E; subst a b. repeat split; try assumption; try lia.
           now left.
      * intros (H1 & H2 & H3 & H4 & H5).
        destruct (Z.eq_dec b search_end) as [->|Hb].
        -- right. left. f_equal.
           apply (run_start_unique cur a search_end); try assumption; lia.
        -- destruct H5 as [H5|H5]; [contradiction|].
           left. repeat split; try assumption; lia.
    + apply StronglySorted_snoc; [exact Hsort|].
      intros [a b] Hab. apply Hin in Hab.
      destruct Hab as (H1 & H2 & H3 & H4 & H5). cbn [fst].
      destruct (Z.lt_ge_cases a cur) as [|Hge]; [assumption|exfalso].
      rewrite (Hfree b) in H5 by lia. discriminate.
Qed.
End Scan.

(** ** The widest gap *)

Lemma widest_fold (gs : list (Z * Z)) : forall l1 best l2,
  (forall h, In h l1 -> (gap_width h < gap_width best)%Z) ->
  (forall h, In h l2 -> (gap_width h <= gap_width best)%Z) ->
  exists m1 m2,
    l1 ++ best :: l2 ++ gs = m1 ++ widest best gs :: m2
    /\ (forall h, In h m1 -> (gap_width h < gap_width (widest best gs))%Z)
    /\ (forall h, In h m2 -> (gap_width h <= gap_width (widest best gs))%Z).
Proof.
  unfold widest.
  induction gs as [|x gs IH]; intros l1 best l2 H1 H2; cbn [fold_left].
  - exists l1, l2. rewrite app_nil_r. auto.
  - destruct (Z.ltb_spec (gap_width best) (gap_width x)) as [Hlt|Hge].
    + destruct (IH (l1 ++ best :: l2) x []) as (m1 & m2 & E & Hm1 & Hm2).
      * intros h Hh. apply in_app_iff in Hh. destruct Hh as [Hh|[<-|Hh]].
        -- specialize (H1 h Hh). lia.
        -- exact Hlt.
        -- specialize (H2 h Hh). lia.
      * intros h [].
      * exists m1, m2. split; [|auto].
        rewrite <- E. cbn [app]. rewrite <- app_assoc. reflexivity.
    + destruct (IH l1 best (l2 ++ [x])) as (m1 & m2 & E & Hm1 & Hm2).
      * exact H1.
      * intros h Hh. apply in_app_iff in Hh. destruct Hh as [Hh|[<-|[]]]; auto.
      * exists m1, m2. split; [|auto].
        rewrite <- E, <- app_assoc. reflexivity.
Qed.

Lemma sorted_after (l1 l2 : list (Z * Z)) (w : Z * Z) :
  StronglySorted (fun g h => (fst g < fst h)%Z) (l1 ++ w :: l2) ->
  forall h, In h l2 -> (fst w < fst h)%Z.
Proof.
  induction l1 as [|y l1 IH]; cbn [app]; intros Hs h Hh.
  - inversion Hs as [|? ? _ Hall]; subst.
    rewrite Forall_forall in Hall. now apply Hall.
  - inversion Hs; subst. now apply IH.
Qed.

(** The gap chosen by [max(gaps, key=...)] is the widest maximal run, and
    the leftmost of the widest ones. *)
Lemma widest_is_widest_run (dm : list bool) (g : Z * Z) (gs : list (Z * Z)) :
  find_gaps dm = g :: gs ->
  widest_run dm (fst (widest g gs)) (snd (widest g gs)).
Proof.
  intro E. destruct (find_gaps_spec dm) as [Hin Hsort]. rewrite E in Hin, Hsort.
  destruct (widest_fold gs [] g []) as (m1 & m2 & Em & Hm1 & Hm2);
    [intros h []|intros h []|].
  cbn [app] in Em. set (w := widest g gs) in *.
  assert (Hw : In w (g :: gs)) by (rewrite Em; apply in_elt).
  split.
  - apply Hin. now destruct w.
  - intros a' b' Hrun. apply Hin in Hrun. rewrite Em in Hrun, Hsort.
    apply in_app_iff in Hrun. destruct Hrun as [Hrun|[Hrun|Hrun]].
    + left. specialize (Hm1 _ Hrun). unfold gap_width in Hm1.
      cbn [fst snd] in Hm1. exact Hm1.
    + right. rewrite Hrun. cbn [fst snd]. lia.
    + pose proof (sorted_after _ _ _ Hsort _ Hrun) as Hlt.
      specialize (Hm2 _ Hrun). unfold gap_width in Hm2.
      cbn [fst snd] in Hm2, Hlt. lia.
Qed.

Lemma widest_run_unique (dm : list bool) (a b a' b' : Z) :
  widest_run dm a b -> widest_run dm a' b' -> a = a' /\ b = b'.
Proof.
  intros [Hr Hw] [Hr' Hw'].
  specialize (Hw _ _ Hr'). specialize (Hw' _ _ Hr). lia.
Qed.

Lemma two_percent_of_bins (w : Z) :
  Qltb (inject_Z bins * 0.02) (inject_Z w) = true <-> (8 < w)%Z.
Proof.
  rewrite Qltb_lt.
  assert (E : inject_Z bins * 0.02 == inject_Z 8) by reflexivity.
  rewrite E. unfold Qlt, inject_Z. cbn [Qnum Qden]. lia.
Qed.

(** What [find_split_x] answers, read off the gaps of its histogram. *)
Lemma split_of_gaps_spec (dm : list bool) (page_width : Q) :
  (forall v, split_of_gaps (find_gaps dm) page_width = Some v <->
     exists a b, widest_run dm a b /\ (8 < b - a)%Z
                 /\ v = gap_center a b page_width)
  /\ (split_of_gaps (find_gaps dm) page_width = None <->
        forall a b, maximal_run dm a b -> (b - a <= 8)%Z).
Proof.
  destruct (find_gaps_spec dm) as [Hin _].
  unfold split_of_gaps. destruct (find_gaps dm) as [|g gs] eqn:E.
  - split.
    + intro v. split; [discriminate|].
      intros (a & b & [Hr _] & _). now apply Hin in Hr.
    + split; [|reflexivity]. intros _ a b Hr. now apply Hin in Hr.
  - pose proof (widest_is_widest_run dm g gs E) as Hw.
    set (w := widest g gs) in *. unfold gap_width.
    destruct (Qltb _ _) eqn:Hwide.
    + apply two_percent_of_bins in Hwide. split.
      * intro v. split.
        -- intro Hv. exists (fst w), (snd w). repeat split; try apply Hw; auto.
           now inversion Hv.
        -- intros (a & b & Hab & _ & ->).
           destruct (widest_run_unique _ _ _ _ _ Hw Hab) as [<- <-].
           reflexivity.
      * split; [discriminate|]. intro Hall.
        specialize (Hall _ _ (proj1 Hw)). lia.
    + assert (Hn : (snd w - fst w <= 8)%Z).
      { destruct (Z.le_gt_cases (snd w - fst w) 8) as [|Hgt]; [assumption|].
        apply two_percent_of_bins in Hgt. congruence. }
      split.
      * intro v. split; [discriminate|].
        intros (a & b & Hab & Hgt & _).
        destruct (widest_run_unique _ _ _ _ _ Hw Hab) as [<- <-]. lia.
      * split; [|reflexivity]. intros _ a b Hr.
        destruct (proj2 Hw _ _ Hr); lia.
Qed.

(** ** The histogram is built whenever the page width is not zero *)

Lemma py_div_ok (a b : Q) : ~ b == 0 -> py_div a b = Ret (a / b).
Proof.
  intro Hb. unfold py_div. destruct (Qeq_bool b 0) eqn:E; [|reflexivity].
  apply Qeq_bool_iff in E. contradiction.
Qed.

Lemma build_histogram_ok (page_width : Q) (bs : list Box) :
  ~ page_width == 0 ->
  forall dm, exists dm', build_histogram page_width dm bs = Ret dm'.
Proof.
  intro Hpw. induction bs as [|b bs IH]; intro dm; cbn [build_histogram].
  - now exists dm.
  - unfold mark_box. rewrite !py_div_ok by assumption. cbn [bind]. apply IH.
Qed.

Lemma density_map_ok (boxes : list Box) (page_width page_height : Q) :
  ~ page_width == 0 ->
  exists dm, density_map boxes page_width page_height = Ret dm.
Proof.
  intro Hpw. unfold density_map. now apply build_histogram_ok.
Qed.

(** ** The split detector *)

Lemma Ret_inj {A : Type} (a b : A) : Ret a = Ret b -> a = b.
Proof.
  intro H.
  exact (f_equal (fun r => match r with Ret x => x | Raise _ => a end) H).
Qed.

Lemma maximal_run_bounds (dm : list bool) (a b : Z) :
  maximal_run dm a b -> (80 <= a)%Z /\ (a < b)%Z /\ (b <= 320)%Z.
Proof.
  pose proof search_start_eq. pose proof search_end_eq.
  intros (H1 & H2 & _). lia.
Qed.

(** A returned split lies strictly inside the search window. *)
Lemma gap_center_in_window (a b : Z) (page_width : Q) :
  (80 <= a)%Z -> (8 < b - a)%Z -> (b <= 320)%Z -> 0 < page_width ->
  0.20 * page_width < gap_center a b page_width
  /\ gap_center a b page_width < 0.80 * page_width.
Proof.
  intros Ha Hw Hb Hpw. unfold gap_center.
  assert (HA : 80 <= inject_Z a)
    by (unfold Qle, inject_Z; cbn [Qnum Qden]; lia).
  assert (HW : 9 <= inject_Z (b - a))
    by (unfold Qle, inject_Z; cbn [Qnum Qden]; lia).
  assert (HB : inject_Z a + inject_Z (b - a) <= 320).
  { rewrite <- inject_Z_plus. unfold Qle, inject_Z; cbn [Qnum Qden]. lia. }
  set (A := inject_Z a) in *. set (W := inject_Z (b - a)) in *.
  assert (E : (A + W / 2) / inject_Z bins == (A + W * (1 # 2)) * (1 # 400))
    by (unfold bins; field).
  rewrite E. split.
  - apply Qmult_lt_compat_r; [exact Hpw|]. lra.
  - apply Qmult_lt_compat_r; [exact Hpw|]. lra.
Qed.

Lemma find_split_x_some (boxes : list Box) (page_width page_height v : Q) :
  find_split_x boxes page_width page_height = Ret (Some v) ->
  exists a b, (80 <= a)%Z /\ (8 < b - a)%Z /\ (b <= 320)%Z
              /\ v = gap_center a b page_width.
Proof.
  unfold find_split_x.
  destruct (density_map boxes page_width page_height) as [dm|e];
    cbn [bind]; [|discriminate].
  intro E. apply Ret_inj in E. rename E into Hv.
  apply (proj1 (split_of_gaps_spec dm page_width)) in Hv.
  destruct Hv as (a & b & [Hr _] & Hw & ->).
  apply maximal_run_bounds in Hr. exists a, b. repeat split; try lia.
Qed.


(** A returned split is never the coordinate zero, so [if split_x:] tells
    a returned split from none. *)
Lemma split_is_truthy (boxes : list Box) (page_width page_height v : Q) :
  0 < page_width ->
  find_split_x boxes page_width page_height = Ret (Some v) ->
  truthy v = true.
Proof.
  intros Hpw Hv.
  destruct (find_split_x_some _ _ _ _ Hv) as (a & b & Ha & Hw & Hb & ->).
  destruct (gap_center_in_window a b page_width Ha Hw Hb Hpw) as [Hlo _].
  unfold truthy. apply negb_true_iff.
  destruct (Qeq_bool _ 0) eqn:E; [|reflexivity].
  apply Qeq_bool_iff in E. rewrite E in Hlo. lra.
Qed.

(** ** Empty input *)

Lemma find_gaps_zeros : find_gaps zeros = [(80, 320)%Z].
Proof. vm_compute. reflexivity. Qed.

Lemma find_split_x_nil (page_width page_height : Q) :
  find_split_x [] page_width page_height
  = Ret (Some (gap_center 80 320 page_width)).
Proof.
  unfold find_split_x, density_map, valid_boxes.
  cbn [filter build_histogram bind]. rewrite find_gaps_zeros. reflexivity.
Qed.

(** C3, as the code has it.  Handed an empty list of boxes, the detector
    finds the whole search window unoccupied and returns the middle of the
    page, [page_width / 2], for every page size.  An empty page yields no
    split because [process_page] returns before it calls the detector. *)
Theorem empty_input_split (page_width page_height : Q) :
  (exists v, find_split_x [] page_width page_height = Ret (Some v)
             /\ v == page_width / 2)
  /\ process_page [] page_width page_height = Ret ([], None).
Proof.
  split; [|reflexivity].
  exists (gap_center 80 320 page_width). split; [apply find_split_x_nil|].
  unfold gap_center, bins, inject_Z. change (320 - 80)%Z with 240%Z. field.
Qed.

(** C3 fails as stated: on a 600 by 800 page the detector answers 300 for
    an empty list of boxes. *)
Lemma empty_input_split_counterexample :
  (exists v, find_split_x [] 600 800 = Ret (Some v) /\ v == 300)
  /\ find_split_x [] 600 800 <> Ret None.
Proof.
  rewrite find_split_x_nil. split; [|discriminate].
  eexists. split; reflexivity.
Qed.

(** ** Sorting *)

Section SortFacts.
Context {A : Type} (key : A -> Q).

Lemma insert_by_perm (x : A) (l : list A) :
  Permutation (insert_by key x l) (x :: l).
Proof.
  induction l as [|y l IH]; cbn [insert_by]; [reflexivity|].
  destruct (Qltb (key y) (key x)); [|reflexivity].
  rewrite IH. apply perm_swap.
Qed.

Lemma sort_by_perm (l : list A) : Permutation (sort_by key l) l.
Proof.
  induction l as [|x l IH]; cbn [sort_by]; [reflexivity|].
  rewrite insert_by_perm. now constructor.
Qed.

Lemma insert_by_sorted (x : A) (l : list A) :
  StronglySorted (fun a b => key a <= key b) l ->
  StronglySorted (fun a b => key a <= key b) (insert_by key x l).
Proof.
  induction 1 as [|y l Hs IH Hall]; cbn [insert_by].
  - repeat constructor.
  - destruct (Qltb_spec (key y) (key x)) as [Hlt|Hge].
    + constructor; [exact IH|].
      rewrite Forall_forall in *. intros z Hz.
      apply (Permutation_in _ (insert_by_perm x l)) in Hz.
      destruct Hz as [<-|Hz]; [now apply Qlt_le_weak | now apply Hall].
    + apply Qnot_lt_le in Hge. constructor; [now constructor|].
      constructor; [exact Hge|].
      rewrite Forall_forall in *. intros z Hz.
      apply Qle_trans with (key y); [exact Hge | now apply Hall].
Qed.

Lemma sort_by_sorted (l : list A) :
  StronglySorted (fun a b => key a <= key b) (sort_by key l).
Proof.
  induction l as [|x l IH]; cbn [sort_by]; [constructor|].
  now apply insert_by_sorted.
Qed.

(** Sorting a list that is already in order leaves it as it is. *)
Lemma sort_by_id (l : list A) :
  StronglySorted (fun a b => key a <= key b) l -> sort_by key l = l.
Proof.
  induction 1 as [|x l Hs IH Hall]; cbn [sort_by]; [reflexivity|].
  rewrite IH. destruct l as [|y l]; [reflexivity|]. cbn [insert_by].
  inversion Hall as [|? ? Hxy _]; subst.
  destruct (Qltb_spec (key y) (key x)) as [Hlt|_]; [|reflexivity].
  exfalso. exact (Qlt_not_le _ _ Hlt Hxy).
Qed.
End SortFacts.

(** ** Groups *)

Section SegmentFacts.
Context {A : Type} (ok : list A -> A -> bool).

Lemma segments_from_concat (xs : list A) : forall cur,
  List.concat (segments_from ok cur xs) = cur ++ xs.
Proof.
  induction xs as [|x xs IH]; intro cur; cbn [segments_from].
  - destruct cur; cbn [List.concat]; now rewrite ?app_nil_r.
  - destruct cur as [|c cur]; [now rewrite IH|].
    destruct (ok (c :: cur) x).
    + rewrite IH, <- app_assoc. reflexivity.
    + cbn [List.concat]. now rewrite IH.
Qed.

Lemma segments_concat (xs : list A) : List.concat (segments ok xs) = xs.
Proof. apply segments_from_concat. Qed.

(** A property that holds of one-element groups and is kept when an
    element joins a group holds of every group. *)
Lemma segments_from_ind (P : list A -> Prop) :
  (forall x, P [x]) ->
  (forall cur x, cur <> [] -> P cur -> ok cur x = true -> P (cur ++ [x])) ->
  forall xs cur, (cur = [] \/ P cur) ->
  forall g, In g (segments_from ok cur xs) -> g <> [] /\ P g.
Proof.
  intros H1 Hstep. induction xs as [|x xs IH]; intros cur Hcur g Hg;
    cbn [segments_from] in Hg.
  - destruct cur as [|c cur]; [destruct Hg|].
    destruct Hg as [<-|[]]. split; [discriminate|].
    destruct Hcur as [|]; [discriminate|assumption].
  - destruct cur as [|c cur].
    + apply (IH [x]); [right; apply H1 | exact Hg].
    + assert (Hc : P (c :: cur))
        by (destruct Hcur as [|]; [discriminate|assumption]).
      destruct (ok (c :: cur) x) eqn:Hok.
      * apply (IH ((c :: cur) ++ [x])); [right|exact Hg].
        apply Hstep; [discriminate|assumption|assumption].
      * destruct Hg as [<-|Hg]; [split; [discriminate|assumption]|].
        apply (IH [x]); [right; apply H1 | exact Hg].
Qed.

Lemma segments_ind (P : list A -> Prop) :
  (forall x, P [x]) ->
  (forall cur x, cur <> [] -> P cur -> ok cur x = true -> P (cur ++ [x])) ->
  forall xs g, In g (segments ok xs) -> g <> [] /\ P g.
Proof.
  intros H1 Hstep xs. apply segments_from_ind; auto.
Qed.
End SegmentFacts.

(** The two loops merge exactly the groups. *)
Section Loops.
Context {A B : Type} (ok : list A -> A -> bool) (fin : list A -> B)
        (step : list B * list A -> A -> list B * list A).

Hypothesis step_nil : forall out x, step (out, []) x = (out, [x]).
Hypothesis step_cons : forall out c cur x,
  step (out, c :: cur) x =
  if ok (c :: cur) x then (out, (c :: cur) ++ [x])
  else (out ++ [fin (c :: cur)], [x]).

Lemma loop_segments (xs : list A) : forall out cur,
  (let '(out', cur') := fold_left step xs (out, cur) in
   match cur' with [] => out' | _ => out' ++ [fin cur'] end)
  = out ++ map fin (segments_from ok cur xs).
Proof.
  induction xs as [|x xs IH]; intros out cur; cbn [fold_left segments_from].
  - destruct cur; cbn [map]; now rewrite ?app_nil_r.
  - destruct cur as [|c cur].
    + rewrite step_nil. apply IH.
    + rewrite step_cons. destruct (ok (c :: cur) x).
      * apply IH.
      * rewrite IH. cbn [map]. rewrite <- app_assoc. reflexivity.
Qed.
End Loops.


Lemma cluster_vertical_groups (lines : list Item) (split_x : option Q) :
  _cluster_vertical lines split_x
  = map (fun g => _merge_items g newline) (block_groups lines split_x).
Proof.
  unfold _cluster_vertical, block_groups, segments.
  destruct lines as [|l lines]; [reflexivity|].
  set (sorted := sort_by _ (l :: lines)).
  apply (loop_segments (block_ok (global_avg_h sorted) split_x)
           (fun g => _merge_items g newline)
           (block_step (global_avg_h sorted) split_x)).
  - reflexivity.
  - intros out c cur x. unfold block_step, block_ok. cbn [last_of].
    reflexivity.
Qed.

(** ** Top-to-bottom order *)

Lemma StronglySorted_map {A B : Type} (R : B -> B -> Prop) (f : A -> B)
  (l : list A) :
  StronglySorted (fun a b => R (f a) (f b)) l -> StronglySorted R (map f l).
Proof.
  induction 1 as [|x l Hs IH Hall]; cbn [map]; constructor; [exact IH|].
  rewrite Forall_forall in *. intros y Hy. apply in_map_iff in Hy.
  destruct Hy as (z & <- & Hz). now apply Hall.
Qed.

Lemma StronglySorted_app_inv {A : Type} (R : A -> A -> Prop) (l1 l2 : list A) :
  StronglySorted R (l1 ++ l2) ->
  StronglySorted R l2 /\ forall a b, In a l1 -> In b l2 -> R a b.
Proof.
  induction l1 as [|x l1 IH]; cbn [app]; intro Hs.
  - split; [exact Hs|]. intros a b [].
  - inversion Hs as [|? ? Hs' Hall]; subst. destruct (IH Hs') as [H2 H12].
    split; [exact H2|]. intros a b [<-|Ha] Hb.
    + rewrite Forall_forall in Hall. apply Hall, in_or_app. now right.
    + now apply H12.
Qed.

(** When the concatenation of the groups is in key order, so is any list
    made of one key per group. *)
Lemma group_keys_sorted {A : Type} (key : A -> Q) (k : list A -> Q)
  (gs : list (list A)) :
  StronglySorted (fun a b => key a <= key b) (List.concat gs) ->
  (forall g, In g gs -> exists a, In a g /\ k g = key a) ->
  StronglySorted (fun g h => k g <= k h) gs.
Proof.
  induction gs as [|g gs IH]; cbn [List.concat]; intros Hs Hk; [constructor|].
  destruct (StronglySorted_app_inv _ _ _ Hs) as [Hs' Hcross].
  constructor.
  - apply IH; [exact Hs'|]. intros h Hh. apply Hk. now right.
  - rewrite Forall_forall. intros h Hh.
    destruct (Hk g (or_introl eq_refl)) as (a & Ha & ->).
    destruct (Hk h (or_intror Hh)) as (b & Hb & ->).
    apply Hcross; [exact Ha|]. apply List.in_concat. now exists h.
Qed.

Lemma merged_y0_member (g : list Item) (join_char : string) :
  g <> [] ->
  exists a, In a g /\ y0 (box (_merge_items g join_char)) = y0 (box a).
Proof.
  destruct g as [|i g]; [contradiction|]. intros _.
  destruct (merged_box_union i g join_char) as (_ & _ & [Hin _] & _).
  cbv zeta in Hin. rewrite map_map in Hin. apply in_map_iff in Hin.
  destruct Hin as (a & E & Ha). exists a. split; [exact Ha|]. now rewrite E.
Qed.



Lemma merged_groups_sorted (join_char : string) (gs : list (list Item)) :
  StronglySorted (fun a b => y0 (box a) <= y0 (box b)) (List.concat gs) ->
  (forall g, In g gs -> g <> []) ->
  StronglySorted (fun a b => y0 (box a) <= y0 (box b))
                 (map (fun g => _merge_items g join_char) gs).
Proof.
  intros Hs Hne. apply StronglySorted_map.
  apply (group_keys_sorted (fun i => y0 (box i))
           (fun g => y0 (box (_merge_items g join_char))));
    [exact Hs|].
  intros g Hg. apply merged_y0_member. now apply Hne.
Qed.




(** ** The merge rules *)

Lemma py_min2_Qmin (a b : Q) : py_min2 a b == Qmin a b.
Proof.
  destruct (py_min2_cases a b) as [[-> H]|[-> H]].
  - symmetry. now apply Q.min_l.
  - symmetry. apply Q.min_r. now apply Qlt_le_weak.
Qed.

Lemma py_max2_Qmax (a b : Q) : py_max2 a b == Qmax a b.
Proof.
  destruct (py_max2_cases a b) as [[-> H]|[-> H]].
  - symmetry. now apply Q.max_l.
  - symmetry. apply Q.max_r. now apply Qlt_le_weak.
Qed.


Lemma threshold_spec (avg : Q) (prev cur : Box) :
  threshold avg prev cur == spec_threshold avg prev cur.
Proof.
  unfold threshold, spec_threshold, multiplier, dominant_h.
  rewrite py_max2_Qmax.
  assert (E : py_max2 (height prev) (height cur)
              == Qmax (height prev) (height cur)) by apply py_max2_Qmax.
  destruct (Qltb_spec (py_max2 (height prev) (height cur)) avg) as [Hlt|Hge];
    destruct (Qlt_le_dec (Qmax (height prev) (height cur)) avg) as [Hlt'|Hge'].
  - now rewrite E.
  - exfalso. rewrite E in Hlt. exact (Qlt_not_le _ _ Hlt Hge').
  - exfalso. rewrite E in Hge. contradiction.
  - now rewrite E.
Qed.

Lemma is_close_spec (avg : Q) (prev cur : Box) :
  is_close avg prev cur = true <-> spec_is_close avg prev cur.
Proof.
  unfold is_close, spec_is_close, v_gap. rewrite Qltb_lt.
  now rewrite threshold_spec.
Qed.

Lemma is_aligned_spec (prev cur : Box) :
  is_aligned prev cur = true <-> spec_is_aligned prev cur.
Proof.
  unfold is_aligned, spec_is_aligned. now rewrite orb_true_iff, !Qltb_lt.
Qed.

Lemma center_mid (b : Box) : center b == (x0 b + x1 b) / 2.
Proof. unfold center. field. Qed.

Lemma side_left (b : Box) (s : Q) : side b s = "L"%string <-> center b < s.
Proof.
  unfold side. destruct (Qltb_spec (center b) s) as [H|H]; split; intro H';
    try reflexivity; try assumption; try discriminate; contradiction.
Qed.

Lemma side_eq_spec (a b : Box) (s : Q) :
  side a s = side b s <-> spec_same_side s a b.
Proof.
  unfold spec_same_side. rewrite <- !center_mid, <- !side_left.
  unfold side. destruct (Qltb (center a) s), (Qltb (center b) s);
    split; try tauto; try discriminate; intros [H1 H2];
    try (now rewrite H1); try (now rewrite H2).
Qed.

Lemma truthy_spec (s : Q) : truthy s = true <-> ~ s == 0.
Proof.
  unfold truthy. rewrite negb_true_iff. split.
  - intros H E. apply Qeq_bool_iff in E. congruence.
  - intro H. destruct (Qeq_bool s 0) eqn:E; [|reflexivity].
    apply Qeq_bool_iff in E. contradiction.
Qed.


Lemma block_merge_spec (avg : Q) (split_x : option Q)
  (current_block_lines : list Item) (last_line line : Item) :
  block_merge avg split_x current_block_lines last_line line = true <->
  spec_is_close avg (box last_line) (box line)
  /\ spec_is_aligned (box last_line) (box line)
  /\ block_crosses_barrier split_x current_block_lines line = false.
Proof.
  unfold block_merge.
  rewrite !andb_true_iff, negb_true_iff, is_close_spec, is_aligned_spec. tauto.
Qed.


(** ** The page as Blocks of Lines of fragments *)

Lemma regroup_concat {A : Type} (gs : list (list A)) :
  regroup (map (@List.length A) gs) (List.concat gs) = gs.
Proof.
  induction gs as [|g gs IH]; cbn [map regroup List.concat]; [reflexivity|].
  rewrite firstn_app, Nat.sub_diag, firstn_all, firstn_O, app_nil_r.
  rewrite skipn_app, Nat.sub_diag, skipn_all. cbn [skipn app].
  now rewrite IH.
Qed.

Lemma regroup_map {A B : Type} (f : A -> B) (lens : list nat) : forall l,
  regroup lens (map f l) = map (map f) (regroup lens l).
Proof.
  induction lens as [|n lens IH]; intro l; cbn [regroup map]; [reflexivity|].
  now rewrite firstn_map, skipn_map, IH.
Qed.











(** ** The order of the Lines in a Block's text *)

(** C2 fails on the code.  On a page 512 wide and 800 high, the fragments
    "first" at (20, 200, 100, 210) and "second" at (10, 212, 100, 222) make
    two Lines that are merged, in that vertical order, into one Block.  The
    specification asks for the text "first\nsecond"; [_merge_items] sorts
    the Lines by [x0] before joining them and returns "second\nfirst". *)
Theorem block_text_sorted_by_x0 :
  let lines := cluster_lines page_indent (Some 256) in
  lines = page_indent
  /\ block_groups lines (Some 256) = [page_indent]
  /\ map text (_cluster_vertical lines (Some 256))
     = [("second" ++ newline ++ "first")%string]
  /\ spec_block_text page_indent = ("first" ++ newline ++ "second")%string
  /\ exists v blk,
       process_page page_indent 512 800 = Ret ([blk], Some v)
       /\ v == 256
       /\ text blk = ("second" ++ newline ++ "first")%string.
Proof.
  cbv zeta. repeat split.
  exists (204800 # 800), (mkItem ("second" ++ newline ++ "first")%string
                            (mkBox 10 200 100 222)).
  repeat split.
Qed.

(** ** The barrier *)



Lemma center_lt (b : Box) (s : Q) : center b < s <-> x0 b + x1 b < 2 * s.
Proof.
  assert (E : center b == (x0 b + x1 b) * (1 # 2)) by (unfold center; field).
  rewrite E. split; intro; lra.
Qed.

Lemma merge_boxes_snoc (b0 : Box) (bs : list Box) (b : Box) :
  let u := merge_boxes (b0 :: bs) in
  merge_boxes ((b0 :: bs) ++ [b])
  = mkBox (py_min2 (x0 u) (x0 b)) (py_min2 (y0 u) (y0 b))
          (py_max2 (x1 u) (x1 b)) (py_max2 (y1 u) (y1 b)).
Proof.
  cbv zeta. cbn [app merge_boxes x0 y0 x1 y1]. unfold py_min, py_max.
  rewrite !map_app, !fold_left_app. reflexivity.
Qed.

(** A Line on the side of the union box leaves the union box on its side
    when it joins the block. *)
Lemma union_side_snoc (s : Q) (b0 : Box) (bs : list Box) (b : Box) :
  side (merge_boxes (b0 :: bs)) s = side b s ->
  side (merge_boxes ((b0 :: bs) ++ [b])) s = side b s.
Proof.
  rewrite merge_boxes_snoc. cbv zeta.
  set (u := merge_boxes (b0 :: bs)).
  rewrite !side_eq_spec. unfold spec_same_side.
  rewrite <- !center_mid, !center_lt. cbn [x0 x1].
  intro H.
  destruct (py_min2_cases (x0 u) (x0 b)) as [[-> Hm]|[-> Hm]];
    destruct (py_max2_cases (x1 u) (x1 b)) as [[-> HM]|[-> HM]];
    destruct (Qlt_le_dec (x0 b + x1 b) (2 * s)) as [Hb|Hb];
    destruct (Qlt_le_dec (x0 u + x1 u) (2 * s)) as [Hu|Hu];
    try (exfalso; apply (Qlt_not_le _ _ (proj1 H Hu) Hb));
    try (exfalso; apply (Qlt_not_le _ _ (proj2 H Hb) Hu));
    split; intro; lra.
Qed.

Lemma merge_boxes_one_side (s : Q) (b : Box) :
  side (merge_boxes [b]) s = side b s.
Proof. destruct b. reflexivity. Qed.

Lemma block_ok_same_side (avg s : Q) (cur : list Item) (x : Item) :
  truthy s = true -> cur <> [] -> block_ok avg (Some s) cur x = true ->
  side (merge_boxes (map box cur)) s = side (box x) s.
Proof.
  intros Ht Hne Hok. unfold block_ok in Hok.
  destruct cur as [|c cur]; [contradiction|]. cbn [last_of] in Hok.
  apply block_merge_spec in Hok. destruct Hok as (_ & _ & Hflag).
  unfold block_crosses_barrier in Hflag. rewrite Ht in Hflag.
  apply negb_false_iff, String.eqb_eq in Hflag. exact Hflag.
Qed.

Lemma block_groups_same_side (lines : list Item) (s : Q) :
  truthy s = true ->
  forall g, In g (block_groups lines (Some s)) -> same_side_group s g.
Proof.
  intros Ht g Hg. unfold block_groups in Hg.
  apply (segments_ind _ (same_side_group s)) in Hg; [apply Hg| |].
  - intros x l [<-|[]]. cbn [map]. symmetry. apply merge_boxes_one_side.
  - intros cur x Hne IH Hok l Hl.
    pose proof (block_ok_same_side _ s cur x Ht Hne Hok) as Hside.
    destruct cur as [|c cur]; [contradiction|].
    rewrite map_app. cbn [map] in *.
    rewrite (union_side_snoc s (box c) (map box cur) (box x) Hside).
    apply in_app_iff in Hl. destruct Hl as [Hl|[<-|[]]]; [|reflexivity].
    rewrite (IH l Hl). exact Hside.
Qed.

(** ** The theorems at sample pages *)



(** * The rest of the program *)

(** ** The histogram *)

Lemma fill_from_length (lo hi : Z) (dm : list bool) : forall i,
  List.length (fill_from i lo hi dm) = List.length dm.
Proof.
  induction dm as [|v dm IH]; intro i; cbn [fill_from List.length];
    [reflexivity|]. now rewrite IH.
Qed.

Lemma fill_from_nth (lo hi : Z) (dm : list bool) : forall i j,
  (j < List.length dm)%nat ->
  nth j (fill_from i lo hi dm) false
  = ((lo <=? i + Z.of_nat j)%Z && (i + Z.of_nat j <? hi)%Z) || nth j dm false.
Proof.
  induction dm as [|v dm IH]; intros i j Hj; cbn [List.length] in Hj; [lia|].
  cbn [fill_from]. destruct j as [|j].
  - cbn [nth]. replace (i + Z.of_nat 0)%Z with i by lia.
    destruct ((lo <=? i)%Z && (i <? hi)%Z); reflexivity.
  - cbn [nth]. rewrite IH by lia.
    now replace (i + 1 + Z.of_nat j)%Z with (i + Z.of_nat (S j))%Z by lia.
Qed.

Lemma slice_fill_occupied (dm : list bool) (start stop k : Z) :
  (0 <= k < Z.of_nat (List.length dm))%Z ->
  occupied (slice_fill dm start stop) k = true <->
  (slice_index (Z.of_nat (List.length dm)) start <= k
   < slice_index (Z.of_nat (List.length dm)) stop)%Z
  \/ occupied dm k = true.
Proof.
  intro Hk. unfold occupied, slice_fill.
  rewrite fill_from_nth by lia.
  rewrite Z2Nat.id, Z.add_0_l by lia.
  rewrite orb_true_iff, andb_true_iff, Z.leb_le, Z.ltb_lt. tauto.
Qed.

Lemma slice_fill_length (dm : list bool) (start stop : Z) :
  List.length (slice_fill dm start stop) = List.length dm.
Proof. apply fill_from_length. Qed.

Lemma zeros_length : List.length zeros = 400%nat.
Proof. reflexivity. Qed.

Lemma zeros_free (k : Z) : occupied zeros k = false.
Proof.
  unfold occupied, zeros. generalize (Z.to_nat bins) (Z.to_nat k).
  intro n. induction n as [|n IH]; intros [|j]; cbn [repeat nth]; auto.
Qed.




(** ** [int] and the floor *)


(** ** The filter of the split detector *)

Lemma keep_box_spec (page_width page_height : Q) (b : Box) :
  keep_box page_width page_height b = true <->
  page_height * 0.15 <= y0 b /\ x1 b - x0 b <= page_width * 0.85.
Proof.
  unfold keep_box. rewrite andb_true_iff, !negb_true_iff, !Qltb_ge. tauto.
Qed.

(** X4.  The boxes that build the histogram.  When at least one box starts
    at or below 15% of the page height and is at most 85% of the page width
    wide, the histogram is built from exactly the boxes of that kind;
    when no box is of that kind, it is built from all the boxes.  It is
    built from no box only when there is none. *)
Theorem valid_boxes_filter (boxes : list Box) (page_width page_height : Q) :
  let kept b :=
    page_height * 0.15 <= y0 b /\ x1 b - x0 b <= page_width * 0.85 in
  let valid := valid_boxes boxes page_width page_height in
  ((exists b, In b boxes /\ kept b) ->
     forall b, In b valid <-> In b boxes /\ kept b)
  /\ ((forall b, In b boxes -> ~ kept b) -> valid = boxes)
  /\ (valid = [] -> boxes = []).
Proof.
  cbv zeta. unfold valid_boxes.
  destruct (filter (keep_box page_width page_height) boxes) as [|v vs] eqn:E.
  - split; [|split; [reflexivity|auto]].
    intros (b & Hb & Hk). exfalso.
    assert (Hin : In b (filter (keep_box page_width page_height) boxes)).
    { apply filter_In. split; [exact Hb|]. now apply keep_box_spec. }
    rewrite E in Hin. destruct Hin.
  - split; [|split; [|discriminate]].
    + intros _ b. rewrite <- E, filter_In, keep_box_spec. reflexivity.
    + intro Hnone. exfalso.
      assert (Hin : In v (filter (keep_box page_width page_height) boxes))
        by (rewrite E; now left).
      apply filter_In in Hin. destruct Hin as [Hv Hk].
      apply keep_box_spec in Hk. exact (Hnone v Hv Hk).
Qed.

(** ** What [process_page] returns *)


Lemma find_split_x_returns (boxes : list Box) (page_width page_height : Q) :
  ~ page_width == 0 ->
  exists split_x, find_split_x boxes page_width page_height = Ret split_x.
Proof.
  intro Hpw. unfold find_split_x.
  destruct (density_map_ok boxes page_width page_height Hpw) as [dm ->].
  cbn [bind]. eauto.
Qed.





Lemma merge_single (i : Item) (join_char : string) :
  _merge_items [i] join_char = i.
Proof. destruct i as [t [a b c d]]. reflexivity. Qed.

(** X7.  A page of non-zero width with a single fragment yields exactly
    one Block, and that Block is the fragment itself: same text, same
    box. *)
Theorem single_fragment_page (i : Item) (page_width page_height : Q) :
  ~ page_width == 0 ->
  exists split_x,
    process_page [i] page_width page_height = Ret ([i], split_x).
Proof.
  intro Hpw. unfold process_page. cbn [map].
  destruct (find_split_x_returns [box i] page_width page_height Hpw)
    as [s ->].
  cbn [bind]. exists s. do 2 f_equal.
  assert (El : cluster_lines [i] s = [i]).
  { unfold cluster_lines.
    cbn [sort_by insert_by fold_left line_step last_of app].
    now rewrite merge_single. }
  rewrite El. unfold _cluster_vertical.
  cbn [sort_by insert_by fold_left block_step last_of app].
  now rewrite merge_single.
Qed.

(** ** The order of the texts in a merge *)

Lemma insert_by_filter {A : Type} (key : A -> Q) (p : A -> bool) (x : A)
  (l : list A) :
  (forall a b, key a < key b -> p a = true -> p b = true -> False) ->
  filter p (insert_by key x l) = filter p (x :: l).
Proof.
  intro Hp. induction l as [|y l IH]; cbn [insert_by]; [reflexivity|].
  destruct (Qltb_spec (key y) (key x)) as [Hlt|_]; [|reflexivity].
  cbn [filter] in *. rewrite IH.
  destruct (p x) eqn:Ex, (p y) eqn:Ey; try reflexivity.
  exfalso. exact (Hp y x Hlt Ey Ex).
Qed.

Lemma sort_by_stable {A : Type} (key : A -> Q) (k : Q) (l : list A) :
  filter (fun a => Qeq_bool (key a) k) (sort_by key l)
  = filter (fun a => Qeq_bool (key a) k) l.
Proof.
  induction l as [|x l IH]; cbn [sort_by]; [reflexivity|].
  rewrite insert_by_filter.
  - cbn [filter]. now rewrite IH.
  - intros a b Hlt Ha Hb. apply Qeq_bool_iff in Ha, Hb.
    rewrite Ha, Hb in Hlt. exact (Qlt_irrefl _ Hlt).
Qed.

(** X8.  The text of a merge is the texts of its items joined by the join
    character, the items taken in ascending order of the left edge [x0] of
    their boxes, and items with the same [x0] in the order in which they
    were handed in.  This holds for Lines (joined by a space) and for
    Blocks (joined by a newline) alike. *)
Theorem merged_text_order (items : list Item) (join_char : string) :
  let key := fun i : Item => x0 (box i) in
  let ordered := sort_by key items in
  text (_merge_items items join_char)
  = String.concat join_char (map text ordered)
  /\ Permutation ordered items
  /\ StronglySorted (fun a b => key a <= key b) ordered
  /\ forall k, filter (fun i => Qeq_bool (key i) k) ordered
               = filter (fun i => Qeq_bool (key i) k) items.
Proof.
  cbv zeta. split; [reflexivity|]. split; [apply sort_by_perm|].
  split; [apply (sort_by_sorted (fun i => x0 (box i)))|].
  intro k. apply (sort_by_stable (fun i => x0 (box i))).
Qed.

(** ** The overlap ratio *)



(** ** Sides of the split *)

Lemma block_lines_same_side_aux (lines : list Item) (s : Q) :
  ~ s == 0 ->
  forall g, In g (block_groups lines (Some s)) ->
  forall l, In l g ->
    (center (box l) < s <-> center (box (_merge_items g newline)) < s).
Proof.
  intros Hs g Hg l Hl. apply truthy_spec in Hs.
  pose proof (block_groups_same_side lines s Hs g Hg l Hl) as Hside.
  change (box (_merge_items g newline)) with (merge_boxes (map box g)).
  rewrite <- !side_left. now rewrite Hside.
Qed.

(** X10.  When a split is set (a coordinate other than 0), every Line of a
    Block that block clustering forms has its center on the side of the
    split on which the center of the Block's box lies: left of the split, or
    at or right of it. *)
Theorem block_lines_same_side (lines : list Item) (s : Q) :
  ~ s == 0 ->
  forall g l,
    In g (block_groups lines (Some s)) -> In l g ->
    (center (box l) < s <-> center (box (_merge_items g newline)) < s).
Proof.
  intros Hs g l Hg Hl. now apply (block_lines_same_side_aux lines s Hs g Hg).
Qed.

Lemma block_color_cases (s : Q) (b : Box) :
  truthy s = true ->
  (block_color (Some s) b = "blue"%string /\ center b < s)
  \/ (block_color (Some s) b = "green"%string /\ s < center b)
  \/ (block_color (Some s) b = "red"%string /\ center b == s).
Proof.
  intro Ht. unfold block_color. rewrite Ht. fold (center b).
  destruct (Qltb_spec (center b) s) as [H1|H1]; [now left|].
  destruct (Qltb_spec s (center b)) as [H2|H2]; [right; now left|].
  right. right. split; [reflexivity|].
  apply Qnot_lt_le in H1, H2. now apply Qle_antisym.
Qed.

(** X11.  The colors [main] draws with.  Without a split, or with a split
    of 0, every Block is outlined in red.  With a split set, a Block
    outlined in blue holds only Lines whose centers lie left of the split,
    and a Block outlined in green or red holds only Lines whose centers lie
    at or right of it; red then means that the center of the Block's box is
    exactly on the split. *)
Theorem block_color_sides (lines : list Item) (s : Q) (b : Box) :
  block_color None b = "red"%string
  /\ (s == 0 -> block_color (Some s) b = "red"%string)
  /\ (~ s == 0 ->
      forall g, In g (block_groups lines (Some s)) ->
        let blk := _merge_items g newline in
        let color := block_color (Some s) (box blk) in
        (color = "blue"%string \/ color = "green"%string
         \/ color = "red"%string)
        /\ (color = "blue"%string ->
              forall l, In l g -> center (box l) < s)
        /\ (color = "green"%string ->
              s < center (box blk)
              /\ forall l, In l g -> s <= center (box l))
        /\ (color = "red"%string ->
              center (box blk) == s
              /\ forall l, In l g -> s <= center (box l))).
Proof.
  split; [reflexivity|]. split.
  - intro Hz. unfold block_color.
    destruct (truthy s) eqn:Ht; [|reflexivity].
    apply truthy_spec in Ht. contradiction.
  - intros Hs g Hg. cbv zeta.
    pose proof (block_lines_same_side_aux lines s Hs g Hg) as Hsame.
    apply truthy_spec in Hs.
    destruct (block_color_cases s (box (_merge_items g newline)) Hs)
      as [[-> Hc]|[[-> Hc]|[-> Hc]]].
    + split; [now left|]. split; [|split]; try discriminate.
      intros _ l Hl. now apply Hsame.
    + split; [right; now left|]. split; [discriminate|].
      split; [|discriminate]. intros _. split; [exact Hc|].
      intros l Hl. apply Qnot_lt_le. intro H. apply Hsame in H; [|exact Hl].
      lra.
    + split; [right; now right|]. split; [discriminate|].
      split; [discriminate|]. intros _. split; [exact Hc|].
      intros l Hl. apply Qnot_lt_le. intro H. apply Hsame in H; [|exact Hl].
      rewrite Hc in H. exact (Qlt_irrefl _ H).
Qed.

(** ** Boxes of Blocks and boxes of fragments *)




(** ** Counting Lines *)




(** ** A split of zero *)

Lemma fold_left_ext_eq {A B : Type} (f g : A -> B -> A) (l : list B) :
  (forall a b, f a b = g a b) ->
  forall a, fold_left f l a = fold_left g l a.
Proof.
  intro H. induction l as [|b l IH]; intro a; cbn [fold_left];
    [reflexivity|]. now rewrite H, IH.
Qed.

(** X14.  A split of exactly 0 is no split: [if split_x:] is false for it,
    so line clustering and block clustering give what they give without a
    split. *)
Theorem zero_split_is_no_split (raw_items lines : list Item) (s : Q) :
  s == 0 ->
  cluster_lines raw_items (Some s) = cluster_lines raw_items None
  /\ _cluster_vertical lines (Some s) = _cluster_vertical lines None.
Proof.
  intro Hs.
  assert (Ht : truthy s = false).
  { unfold truthy. apply negb_false_iff. now apply Qeq_bool_iff. }
  split.
  - unfold cluster_lines.
    rewrite (fold_left_ext_eq (line_step (Some s)) (line_step None));
      [reflexivity|].
    intros [ls cur] x. unfold line_step, line_merge, line_crosses_barrier.
    now rewrite Ht.
  - unfold _cluster_vertical. destruct lines as [|l lines]; [reflexivity|].
    set (sorted := sort_by _ (l :: lines)).
    rewrite (fold_left_ext_eq (block_step (global_avg_h sorted) (Some s))
               (block_step (global_avg_h sorted) None)); [reflexivity|].
    intros [bs cur] x. unfold block_step, block_merge, block_crosses_barrier.
    now rewrite Ht.
Qed.

(** ** From observations to fragments *)


Lemma Qmult_nonneg (a b : Q) : 0 <= a -> 0 <= b -> 0 <= a * b.
Proof. intros. now apply Qmult_le_0_compat. Qed.


(** ** The earlier detector: tracking the longest gap *)








(** ** The earlier detector: the counters *)

Lemma incr_at_length (dm : list Z) : forall n,
  List.length (incr_at n dm) = List.length dm.
Proof.
  induction dm as [|v dm IH]; intros [|n]; cbn [incr_at List.length];
    try reflexivity. now rewrite IH.
Qed.

Lemma incr_at_nth (dm : list Z) : forall n j,
  (n < List.length dm)%nat ->
  nth j (incr_at n dm) 0%Z
  = (nth j dm 0 + if Nat.eqb n j then 1 else 0)%Z.
Proof.
  induction dm as [|v dm IH]; intros n j Hn; cbn [List.length] in Hn; [lia|].
  destruct n as [|n], j as [|j]; cbn [incr_at nth Nat.eqb]; try lia.
  apply IH. lia.
Qed.

Lemma count_step_at (dm : list Z) (i k : Z) :
  List.length dm = 100%nat -> (0 <= i)%Z -> (0 <= k)%Z ->
  List.length (count_step dm i) = 100%nat
  /\ count_at (count_step dm i) k
     = (count_at dm k + if ((i =? k) && (i <? 100))%Z then 1 else 0)%Z.
Proof.
  intros Hlen Hi Hk. unfold count_step, count_at.
  destruct (Z.ltb_spec i 100) as [Hlt|Hge].
  - rewrite incr_at_length. split; [exact Hlen|].
    rewrite incr_at_nth by (rewrite Hlen; lia). rewrite andb_true_r.
    destruct (Z.eqb_spec i k) as [->|Hne].
    + now rewrite Nat.eqb_refl.
    + destruct (Nat.eqb_spec (Z.to_nat i) (Z.to_nat k)) as [E|_];
        [|reflexivity].
      apply Z2Nat.inj in E; lia.
  - split; [exact Hlen|]. rewrite andb_false_r. lia.
Qed.

Lemma count_range_at (n : nat) : forall (dm : list Z) (a k : Z),
  List.length dm = 100%nat -> (0 <= a)%Z -> (0 <= k < 100)%Z ->
  List.length (fold_left count_step (range_from a n) dm) = 100%nat
  /\ count_at (fold_left count_step (range_from a n) dm) k
     = (count_at dm k
        + if ((a <=? k) && (k <? a + Z.of_nat n))%Z then 1 else 0)%Z.
Proof.
  induction n as [|n IH]; intros dm a k Hlen Ha Hk.
  - cbn [range_from fold_left]. split; [exact Hlen|].
    destruct (Z.leb_spec a k), (Z.ltb_spec k (a + Z.of_nat 0)); cbn; lia.
  - cbn [range_from fold_left].
    destruct (count_step_at dm a k Hlen Ha (proj1 Hk)) as [Hlen1 Hc1].
    destruct (IH (count_step dm a) (a + 1)%Z k Hlen1 ltac:(lia) Hk)
      as [Hlen2 Hc2].
    split; [exact Hlen2|]. rewrite Hc2, Hc1.
    destruct (Z.eqb_spec a k), (Z.ltb_spec a 100), (Z.leb_spec a k),
      (Z.leb_spec (a + 1) k), (Z.ltb_spec k (a + 1 + Z.of_nat n)),
      (Z.ltb_spec k (a + Z.of_nat (S n))); cbn; lia.
Qed.

(** ** The earlier detector: the answer *)





(** ** The order of the boxes *)




(** ** These theorems at sample pages *)


Lemma single_fragment_page_witness :
  ~ 512 == 0
  /\ exists split_x,
       process_page [frag "A" 128 200 192 220] 512 800
       = Ret ([frag "A" 128 200 192 220], split_x).
Proof.
  assert (H : ~ 512 == 0) by (unfold Qeq; simpl; lia).
  split; [exact H|].
  exact (single_fragment_page (frag "A" 128 200 192 220) 512 800 H).
Defined.

Lemma block_lines_same_side_witness :
  ~ 256 == 0
  /\ forall g l,
       In g (block_groups page_indent (Some 256)) -> In l g ->
       (center (box l) < 256
        <-> center (box (_merge_items g newline)) < 256).
Proof.
  assert (H : ~ 256 == 0) by (unfold Qeq; simpl; lia).
  split; [exact H|].
  exact (block_lines_same_side page_indent 256 H).
Defined.

Lemma zero_split_is_no_split_witness :
  0 == 0
  /\ cluster_lines page_abc (Some 0) = cluster_lines page_abc None
  /\ _cluster_vertical page_indent (Some 0)
     = _cluster_vertical page_indent None.
Proof.
  assert (H : 0 == 0) by reflexivity.
  split; [exact H|].
  exact (zero_split_is_no_split page_abc page_indent 0 H).
Defined.





(** * Floating point *)

(** ** The constants of the split detector in doubles *)

(** [int(bins * 0.20)], [int(bins * 0.80)] and [bins * 0.02], computed in
    doubles, are the values of the exact products. *)
Lemma window_constants_in_doubles :
  py_int (round_double (inject_Z bins * round_double 0.20)) = search_start
  /\ py_int (round_double (inject_Z bins * round_double 0.80)) = search_end
  /\ round_double (inject_Z bins * round_double 0.02) == inject_Z bins * 0.02.
Proof. repeat split; vm_compute; reflexivity. Qed.

(** ** Rounding to a double *)

(** The nearest integer. *)

Lemma round_half_even_spec (a b : Z) :
  (0 < b)%Z ->
  let m := round_half_even a b in
  (2 * m * b - b <= 2 * a <= 2 * m * b + b)%Z
  /\ ((2 * a = 2 * m * b + b)%Z \/ (2 * a = 2 * m * b - b)%Z ->
      Z.even m = true).
Proof.
  intro Hb. cbv zeta. unfold round_half_even.
  pose proof (Z.div_mod a b ltac:(lia)) as E.
  pose proof (Z.mod_pos_bound a b Hb) as Hr.
  set (m0 := (a / b)%Z) in *. set (r := (a mod b)%Z) in *.
  destruct (Z.compare_spec (2 * r) b) as [Ec|Hc|Hc].
  - destruct (Z.even m0) eqn:Ev.
    + split; [nia|]. intros _. exact Ev.
    + split; [nia|]. intros _. rewrite Z.even_add, Ev. reflexivity.
  - split; [nia|]. intros [H|H]; exfalso; nia.
  - split; [nia|]. intros [H|H]; exfalso; nia.
Qed.

Lemma round_half_even_mono (a b a' b' : Z) :
  (0 < b)%Z -> (0 < b')%Z -> (a * b' <= a' * b)%Z ->
  (round_half_even a b <= round_half_even a' b')%Z.
Proof.
  intros Hb Hb' Hle.
  destruct (round_half_even_spec a b Hb) as [[Hlo _] Hev].
  destruct (round_half_even_spec a' b' Hb') as [[_ Hhi'] Hev'].
  cbv zeta in *.
  set (m := round_half_even a b) in *. set (m' := round_half_even a' b') in *.
  destruct (Z.le_gt_cases m m') as [|Hgt]; [assumption|exfalso].
  assert (H1 : ((2 * m - 1) * (b * b') <= 2 * a * b')%Z) by nia.
  assert (H2 : (2 * a' * b <= (2 * m' + 1) * (b * b'))%Z) by nia.
  assert (Hbb : (0 < b * b')%Z) by nia.
  assert (Hm : m = (m' + 1)%Z) by nia.
  assert (Ea : (2 * a = 2 * m * b - b)%Z) by nia.
  assert (Ea' : (2 * a' = 2 * m' * b' + b')%Z) by nia.
  specialize (Hev (or_intror Ea)). specialize (Hev' (or_introl Ea')).
  rewrite Hm, Z.even_add, Hev' in Hev. discriminate.
Qed.

Lemma round_half_even_exact (N b : Z) :
  (0 < b)%Z -> round_half_even (N * b) b = N.
Proof.
  intro Hb. unfold round_half_even.
  rewrite Z.div_mul, Z.mod_mul by lia.
  destruct (Z.compare_spec (2 * 0) b); try lia.
Qed.

Lemma round_half_even_le (a b N : Z) :
  (0 < b)%Z -> (a <= N * b)%Z -> (round_half_even a b <= N)%Z.
Proof.
  intros Hb H. rewrite <- (round_half_even_exact N b Hb).
  apply round_half_even_mono; try assumption. nia.
Qed.

Lemma round_half_even_ge (a b N : Z) :
  (0 < b)%Z -> (N * b <= a)%Z -> (N <= round_half_even a b)%Z.
Proof.
  intros Hb H. rewrite <- (round_half_even_exact N b Hb) at 1.
  apply round_half_even_mono; try assumption. nia.
Qed.

(** Powers of two and fractions. *)

Lemma pow2_pos (e : Z) : 0 < 2 ^ e.
Proof. now apply Qpower_0_lt. Qed.

Lemma pow2_inject (e : Z) : (0 <= e)%Z -> inject_Z (2 ^ e) == 2 ^ e.
Proof. intro He. now rewrite Zpower_Qpower. Qed.

Lemma pow2_plus (a b : Z) : 2 ^ (a + b) == 2 ^ a * 2 ^ b.
Proof. apply Qpower_plus. discriminate. Qed.

Lemma pow2_le (a b : Z) : (a <= b)%Z -> 2 ^ a <= 2 ^ b.
Proof. intro H. apply Qpower_le_compat_l; [exact H|]. discriminate. Qed.

Lemma pow2_lt_inv (a b : Z) : 2 ^ a < 2 ^ b -> (a < b)%Z.
Proof. intro H. apply (Qpower_lt_compat_l_inv 2); [exact H|reflexivity]. Qed.

Lemma frac_le (a b a' b' : Z) :
  (0 < b)%Z -> (0 < b')%Z ->
  (inject_Z a / inject_Z b <= inject_Z a' / inject_Z b'
   <-> (a * b' <= a' * b)%Z).
Proof.
  intros Hb Hb'. destruct b as [|p|p]; try lia. destruct b' as [|p'|p']; try lia.
  rewrite <- !Qmake_Qdiv. unfold Qle. cbn [Qnum Qden]. reflexivity.
Qed.

Lemma frac_lt (a b a' b' : Z) :
  (0 < b)%Z -> (0 < b')%Z ->
  (inject_Z a / inject_Z b < inject_Z a' / inject_Z b'
   <-> (a * b' < a' * b)%Z).
Proof.
  intros Hb Hb'. destruct b as [|p|p]; try lia. destruct b' as [|p'|p']; try lia.
  rewrite <- !Qmake_Qdiv. unfold Qlt. cbn [Qnum Qden]. reflexivity.
Qed.

Lemma inject_Z_pos (n : Z) : (0 < n)%Z -> 0 < inject_Z n.
Proof. intro H. unfold Qlt, inject_Z. cbn [Qnum Qden]. lia. Qed.

Lemma Qdiv_ge_1 (x c : Q) : 0 < c -> (1 <= x / c <-> c <= x).
Proof.
  intro Hc. split; intro H.
  - apply (Qmult_le_compat_r _ _ c) in H; [|now apply Qlt_le_weak].
    setoid_replace (x / c * c) with x in H by (field; lra). lra.
  - apply Qle_shift_div_l; [exact Hc|]. lra.
Qed.

Lemma Qdiv_lt_shift (x c y : Q) : 0 < c -> (x / c < y <-> x < y * c).
Proof.
  intro Hc. split; intro H.
  - apply (Qmult_lt_compat_r _ _ c) in H; [|exact Hc].
    setoid_replace (x / c * c) with x in H by (field; lra). exact H.
  - apply Qlt_shift_div_r; [exact Hc|exact H].
Qed.

Lemma Qdiv_le_shift (x c y : Q) : 0 < c -> (y <= x / c <-> y * c <= x).
Proof.
  intro Hc. split; intro H.
  - apply (Qmult_le_compat_r _ _ c) in H; [|now apply Qlt_le_weak].
    setoid_replace (x / c * c) with x in H by (field; lra). exact H.
  - apply Qle_shift_div_l; [exact Hc|exact H].
Qed.

(** [scale2 n d e] is the fraction [n / d / 2^e]. *)
Lemma scale2_spec (n d e : Z) :
  (0 < n)%Z -> (0 < d)%Z ->
  (0 < fst (scale2 n d e))%Z /\ (0 < snd (scale2 n d e))%Z
  /\ inject_Z (fst (scale2 n d e)) / inject_Z (snd (scale2 n d e))
     == inject_Z n / inject_Z d / 2 ^ e.
Proof.
  intros Hn Hd. unfold scale2.
  pose proof (inject_Z_pos d Hd) as Hdq. pose proof (pow2_pos e) as Hp.
  destruct (Z.leb_spec 0 e) as [He|He]; cbn [fst snd].
  - assert (0 < 2 ^ e)%Z by (apply Z.pow_pos_nonneg; lia).
    split; [exact Hn|]. split; [nia|].
    rewrite inject_Z_mult, pow2_inject by exact He. field. split; lra.
  - assert (0 < 2 ^ (- e))%Z by (apply Z.pow_pos_nonneg; lia).
    split; [nia|]. split; [exact Hd|].
    rewrite inject_Z_mult, pow2_inject by lia. rewrite Qpower_opp.
    field. split; lra.
Qed.

(** The exponent of the last place: the number is below [2^(e + 53)], and
    it is at least [2^(e + 52)] unless the exponent is the least one. *)
Lemma ulp_exponent_spec (n d : Z) :
  (0 < n)%Z -> (0 < d)%Z ->
  let e := ulp_exponent n d in
  let q := inject_Z n / inject_Z d in
  (-1074 <= e)%Z /\ q < 2 ^ (e + 53)
  /\ (e = (-1074)%Z \/ 2 ^ (e + 52) <= q).
Proof.
  intros Hn Hd. cbv zeta. unfold ulp_exponent.
  set (k := (Z.log2 n - Z.log2 d)%Z).
  pose proof (scale2_spec n d k Hn Hd) as (Ha & Hb & Eab).
  destruct (scale2 n d k) as [a b] eqn:Es. cbn [fst snd] in *.
  set (q := inject_Z n / inject_Z d) in *.
  pose proof (inject_Z_pos n Hn) as Hnq. pose proof (inject_Z_pos d Hd) as Hdq.
  assert (Hq : 0 < q) by (unfold q; apply Qlt_shift_div_l; lra).
  (* bounds of q from the logarithms *)
  pose proof (Z.log2_spec n Hn) as [Ln1 Ln2].
  pose proof (Z.log2_spec d Hd) as [Ld1 Ld2].
  pose proof (Z.log2_nonneg n) as Hln. pose proof (Z.log2_nonneg d) as Hld.
  assert (Qn1 : 2 ^ Z.log2 n <= inject_Z n)
    by (rewrite <- pow2_inject, <- Zle_Qle by lia; exact Ln1).
  assert (Qn2 : inject_Z n < 2 ^ (Z.log2 n + 1))
    by (rewrite <- pow2_inject, <- Zlt_Qlt by lia; exact Ln2).
  assert (Qd1 : 2 ^ Z.log2 d <= inject_Z d)
    by (rewrite <- pow2_inject, <- Zle_Qle by lia; exact Ld1).
  assert (Qd2 : inject_Z d < 2 ^ (Z.log2 d + 1))
    by (rewrite <- pow2_inject, <- Zlt_Qlt by lia; exact Ld2).
  assert (Hup : q < 2 ^ (k + 1)).
  { unfold q. apply Qlt_shift_div_r; [exact Hdq|].
    apply Qlt_le_trans with (2 ^ (Z.log2 n + 1)); [exact Qn2|].
    replace (Z.log2 n + 1)%Z with ((k + 1) + Z.log2 d)%Z by (unfold k; lia).
    rewrite (pow2_plus (k + 1) (Z.log2 d)). apply Qmult_le_l; [apply pow2_pos|exact Qd1]. }
  assert (Hdn : 2 ^ (k - 1) < q).
  { unfold q. apply Qlt_shift_div_l; [exact Hdq|].
    apply Qlt_le_trans with (2 ^ Z.log2 n); [|exact Qn1].
    replace (Z.log2 n) with ((k - 1) + (Z.log2 d + 1))%Z
      by (unfold k; lia).
    rewrite (pow2_plus (k - 1) (Z.log2 d + 1)). apply Qmult_lt_l; [apply pow2_pos|exact Qd2]. }
  pose proof (pow2_pos k) as Hpk.
  assert (Hcmp : (b <= a)%Z <-> 2 ^ k <= q).
  { rewrite <- (Qdiv_ge_1 q (2 ^ k) Hpk), <- Eab.
    rewrite (Qdiv_ge_1 (inject_Z a) (inject_Z b))
      by now apply inject_Z_pos.
    rewrite <- Zle_Qle. reflexivity. }
  destruct (Z.leb_spec b a) as [Hba|Hba].
  - apply Hcmp in Hba. split; [lia|]. split.
    + apply Qlt_le_trans with (2 ^ (k + 1)); [exact Hup|]. apply pow2_le. lia.
    + destruct (Z.max_spec (k - 52) (-1074)) as [[_ ->]|[_ ->]];
        [now left|right].
      replace (k - 52 + 52)%Z with k by lia. exact Hba.
  - assert (Hlt : q < 2 ^ k).
    { apply Qnot_le_lt. intro H. apply Hcmp in H. lia. }
    split; [lia|]. split.
    + apply Qlt_le_trans with (2 ^ k); [exact Hlt|]. apply pow2_le. lia.
    + destruct (Z.max_spec (k - 1 - 52) (-1074)) as [[_ ->]|[_ ->]];
        [now left|right].
      replace (k - 1 - 52 + 52)%Z with (k - 1)%Z by lia.
      now apply Qlt_le_weak.
Qed.

(** The value of [round_pos]. *)
Lemma round_pos_val (n d : Z) :
  let e := ulp_exponent n d in
  round_pos n d
  == inject_Z (round_half_even (fst (scale2 n d e)) (snd (scale2 n d e)))
     * 2 ^ e.
Proof.
  cbv zeta. unfold round_pos. set (e := ulp_exponent n d).
  destruct (scale2 n d e) as [a b]. cbn [fst snd].
  set (m := round_half_even a b).
  destruct (Z.leb_spec 0 e) as [He|He].
  - now rewrite inject_Z_mult, pow2_inject.
  - rewrite Qred_correct.
    assert (Hp : (0 < 2 ^ (- e))%Z) by (apply Z.pow_pos_nonneg; lia).
    rewrite Qmake_Qdiv, Z2Pos.id by exact Hp.
    rewrite pow2_inject by lia. rewrite Qpower_opp.
    pose proof (pow2_pos e). field. lra.
Qed.

(** Rounding keeps the order. *)

Lemma round_pos_mono (n d n' d' : Z) :
  (0 < n)%Z -> (0 < d)%Z -> (0 < n')%Z -> (0 < d')%Z ->
  inject_Z n / inject_Z d <= inject_Z n' / inject_Z d' ->
  round_pos n d <= round_pos n' d'.
Proof.
  intros Hn Hd Hn' Hd' Hle. rewrite !round_pos_val. cbv zeta.
  destruct (ulp_exponent_spec n d Hn Hd) as (He & Hup & Hlo).
  destruct (ulp_exponent_spec n' d' Hn' Hd') as (He' & Hup' & Hlo').
  cbv zeta in *.
  set (e := ulp_exponent n d) in *. set (e' := ulp_exponent n' d') in *.
  destruct (scale2_spec n d e Hn Hd) as (Ha & Hb & Eab).
  destruct (scale2_spec n' d' e' Hn' Hd') as (Ha' & Hb' & Eab').
  destruct (scale2 n d e) as [a b]. destruct (scale2 n' d' e') as [a' b'].
  cbn [fst snd] in *.
  set (q := inject_Z n / inject_Z d) in *.
  set (q' := inject_Z n' / inject_Z d') in *.
  pose proof (pow2_pos e) as Hpe. pose proof (pow2_pos e') as Hpe'.
  assert (Hee : (e <= e')%Z).
  { destruct (Z.le_gt_cases e e') as [|Hgt]; [assumption|exfalso].
    destruct Hlo as [->|Hlo]; [lia|].
    assert (H : 2 ^ (e + 52) < 2 ^ (e' + 53)).
    { apply Qle_lt_trans with q'; [|exact Hup'].
      now apply Qle_trans with q. }
    apply pow2_lt_inv in H. lia. }
  destruct (Z.eq_dec e e') as [E|Hne].
  - rewrite <- E in *. apply Qmult_le_compat_r; [|now apply Qlt_le_weak].
    rewrite <- Zle_Qle. apply round_half_even_mono; [exact Hb|exact Hb'|].
    apply frac_le; [exact Hb|exact Hb'|]. rewrite Eab, Eab'.
    apply Qmult_le_compat_r; [exact Hle|].
    apply Qlt_le_weak, Qinv_lt_0_compat, Hpe.
  - assert (Hm : (round_half_even a b <= 2 ^ 53)%Z).
    { apply round_half_even_le; [exact Hb|].
      assert (H : inject_Z a / inject_Z b < inject_Z (2 ^ 53) / inject_Z 1).
      { rewrite Eab. apply Qdiv_lt_shift; [exact Hpe|].
        setoid_replace (inject_Z (2 ^ 53) / inject_Z 1 * 2 ^ e)
          with (2 ^ (e + 53)); [exact Hup|].
        rewrite (pow2_plus e 53), pow2_inject by lia.
        change (inject_Z 1) with 1. field. }
      apply (proj1 (frac_lt a b (2 ^ 53) 1 Hb eq_refl)) in H. lia. }
    assert (Hm' : (2 ^ 52 <= round_half_even a' b')%Z).
    { apply round_half_even_ge; [exact Hb'|].
      destruct Hlo' as [->|Hlo']; [lia|].
      assert (H : inject_Z (2 ^ 52) / inject_Z 1
                  <= inject_Z a' / inject_Z b').
      { rewrite Eab'. apply Qdiv_le_shift; [exact Hpe'|].
        setoid_replace (inject_Z (2 ^ 52) / inject_Z 1 * 2 ^ e')
          with (2 ^ (e' + 52)); [exact Hlo'|].
        rewrite (pow2_plus e' 52), pow2_inject by lia.
        change (inject_Z 1) with 1. field. }
      apply (proj1 (frac_le (2 ^ 52) 1 a' b' eq_refl Hb')) in H. lia. }
    apply Qle_trans with (inject_Z (2 ^ 53) * 2 ^ e).
    { apply Qmult_le_compat_r; [|now apply Qlt_le_weak].
      now rewrite <- Zle_Qle. }
    apply Qle_trans with (inject_Z (2 ^ 52) * 2 ^ e').
    { rewrite !pow2_inject by lia.
      rewrite <- (pow2_plus 53 e), <- (pow2_plus 52 e'). apply pow2_le. lia. }
    apply Qmult_le_compat_r; [|now apply Qlt_le_weak].
    now rewrite <- Zle_Qle.
Qed.

Lemma round_pos_nonneg (n d : Z) :
  (0 < n)%Z -> (0 < d)%Z -> 0 <= round_pos n d.
Proof.
  intros Hn Hd. rewrite round_pos_val. cbv zeta.
  destruct (scale2_spec n d (ulp_exponent n d) Hn Hd) as (Ha & Hb & _).
  apply Qmult_le_0_compat; [|apply Qlt_le_weak, pow2_pos].
  change 0 with (inject_Z 0). rewrite <- Zle_Qle.
  apply round_half_even_ge with (N := 0%Z); [exact Hb|lia].
Qed.

Lemma Q_as_fraction (q : Q) :
  q == inject_Z (Qnum q) / inject_Z (Zpos (Qden q)).
Proof. destruct q as [n d]. cbn [Qnum Qden]. apply Qmake_Qdiv. Qed.

(** Rounding to a double keeps the order of numbers. *)
Lemma round_double_mono (p q : Q) : p <= q -> round_double p <= round_double q.
Proof.
  intro Hle. assert (Hz := Hle). unfold Qle in Hz.
  rewrite (Q_as_fraction p), (Q_as_fraction q) in Hle.
  unfold round_double.
  destruct p as [[|n|n] d]; destruct q as [[|n'|n'] d']; cbn [Qnum Qden] in *;
    try (exfalso; nia).
  - apply Qle_refl.
  - apply round_pos_nonneg; lia.
  - apply round_pos_mono; try lia. exact Hle.
  - pose proof (round_pos_nonneg (Z.pos n) (Z.pos d) eq_refl eq_refl). lra.
  - pose proof (round_pos_nonneg (Z.pos n) (Z.pos d) eq_refl eq_refl).
    pose proof (round_pos_nonneg (Z.pos n') (Z.pos d') eq_refl eq_refl). lra.
  - assert (H : round_pos (Z.pos n') (Z.pos d') <= round_pos (Z.pos n) (Z.pos d)).
    { apply round_pos_mono; try lia. apply frac_le; try lia. }
    lra.
Qed.

(** Doubles are left as they are. *)

(** A number [m * 2^e] with [m] of at most 53 bits and [e] not below the
    least exponent is a double: rounding returns it. *)
Lemma round_pos_fixed (n d m e : Z) :
  (0 < n)%Z -> (0 < d)%Z -> (0 < m <= 2 ^ 53)%Z -> (-1074 <= e)%Z ->
  inject_Z n / inject_Z d == inject_Z m * 2 ^ e ->
  round_pos n d == inject_Z m * 2 ^ e.
Proof.
  intros Hn Hd Hm He Ev. rewrite round_pos_val. cbv zeta.
  destruct (ulp_exponent_spec n d Hn Hd) as (Hev & Hup & Hlo).
  cbv zeta in *. set (ev := ulp_exponent n d) in *.
  destruct (scale2_spec n d ev Hn Hd) as (Ha & Hb & Eab).
  destruct (scale2 n d ev) as [a b]. cbn [fst snd] in *.
  pose proof (pow2_pos e) as Hpe. pose proof (pow2_pos ev) as Hpev.
  assert (HM : exists M : Z, inject_Z m * 2 ^ e == inject_Z M * 2 ^ ev).
  { destruct (Z.le_gt_cases ev e) as [Hle|Hgt].
    - exists (m * 2 ^ (e - ev))%Z.
      rewrite inject_Z_mult, pow2_inject by lia.
      replace e with ((e - ev) + ev)%Z at 1 by lia.
      rewrite (pow2_plus (e - ev) ev). ring.
    - exists (2 ^ 52)%Z. destruct Hlo as [E|Hlo]; [lia|].
      rewrite Ev in Hlo.
      assert (Hm53 : inject_Z m * 2 ^ e <= 2 ^ (e + 53)).
      { rewrite (pow2_plus e 53), <- (pow2_inject 53) by lia.
        rewrite (Qmult_comm (2 ^ e)).
        apply Qmult_le_compat_r; [|now apply Qlt_le_weak].
        rewrite <- Zle_Qle. lia. }
      assert (Hev1 : ev = (e + 1)%Z).
      { assert (H : 2 ^ (ev + 52) <= 2 ^ (e + 53))
          by (now apply Qle_trans with (inject_Z m * 2 ^ e)).
        apply Qpower_le_compat_l_inv in H; [lia|reflexivity]. }
      assert (Hm' : m = (2 ^ 53)%Z).
      { assert (H : inject_Z (2 ^ 53) <= inject_Z m).
        { apply (Qmult_le_r _ _ (2 ^ e)); [exact Hpe|].
          rewrite pow2_inject by lia. rewrite <- (pow2_plus 53 e).
          replace (53 + e)%Z with (ev + 52)%Z by lia. exact Hlo. }
        rewrite <- Zle_Qle in H. lia. }
      rewrite Hm', Hev1, !pow2_inject by lia.
      rewrite <- (pow2_plus 53 e), <- (pow2_plus 52 (e + 1)).
      replace (52 + (e + 1))%Z with (53 + e)%Z by lia. reflexivity. }
  destruct HM as [M HM].
  assert (Eq : inject_Z a / inject_Z b == inject_Z M / inject_Z 1).
  { rewrite Eab, Ev, HM. change (inject_Z 1) with 1. field. lra. }
  assert (Ea : a = (M * b)%Z).
  { apply Z.le_antisymm.
    - assert (H : inject_Z a / inject_Z b <= inject_Z M / inject_Z 1)
        by (rewrite Eq; apply Qle_refl).
      apply (proj1 (frac_le a b M 1 Hb eq_refl)) in H. lia.
    - assert (H : inject_Z M / inject_Z 1 <= inject_Z a / inject_Z b)
        by (rewrite Eq; apply Qle_refl).
      apply (proj1 (frac_le M 1 a b eq_refl Hb)) in H. lia. }
  rewrite Ea, round_half_even_exact by exact Hb. symmetry. exact HM.
Qed.

(** What rounding returns is such a number. *)
Lemma round_pos_is_double (n d : Z) :
  (0 < n)%Z -> (0 < d)%Z ->
  exists m e, (0 <= m <= 2 ^ 53)%Z /\ (-1074 <= e)%Z
              /\ round_pos n d == inject_Z m * 2 ^ e.
Proof.
  intros Hn Hd.
  destruct (ulp_exponent_spec n d Hn Hd) as (He & Hup & _). cbv zeta in *.
  set (e := ulp_exponent n d) in *.
  pose proof (round_pos_val n d) as Ev. cbv zeta in Ev. fold e in Ev.
  destruct (scale2_spec n d e Hn Hd) as (Ha & Hb & Eab).
  destruct (scale2 n d e) as [a b]. cbn [fst snd] in *.
  pose proof (pow2_pos e) as Hpe.
  exists (round_half_even a b), e. split; [|split; [exact He|exact Ev]].
  split.
  - apply round_half_even_ge with (N := 0%Z); [exact Hb|lia].
  - apply round_half_even_le; [exact Hb|].
    assert (H : inject_Z a / inject_Z b < inject_Z (2 ^ 53) / inject_Z 1).
    { rewrite Eab. apply Qdiv_lt_shift; [exact Hpe|].
      setoid_replace (inject_Z (2 ^ 53) / inject_Z 1 * 2 ^ e)
        with (2 ^ (e + 53)); [exact Hup|].
      rewrite (pow2_plus e 53), pow2_inject by lia.
      change (inject_Z 1) with 1. field. }
    apply (proj1 (frac_lt a b (2 ^ 53) 1 Hb eq_refl)) in H. lia.
Qed.

Lemma round_pos_twice (n d : positive) :
  round_double (round_pos (Zpos n) (Zpos d)) == round_pos (Zpos n) (Zpos d).
Proof.
  destruct (round_pos_is_double (Zpos n) (Zpos d) eq_refl eq_refl)
    as (m & e & Hm & He & Ev).
  set (V := round_pos (Zpos n) (Zpos d)) in *.
  pose proof (pow2_pos e) as Hpe.
  pose proof (Q_as_fraction V) as EV.
  unfold round_double. destruct (Qnum V) as [|p|p] eqn:En.
  - rewrite EV. unfold Qdiv. now rewrite Qmult_0_l.
  - assert (Hmpos : (0 < m)%Z).
    { destruct (Z.eq_dec m 0) as [E0|]; [|lia]. exfalso.
      rewrite E0, Qmult_0_l in Ev. rewrite EV in Ev.
      unfold Qeq in Ev. cbn in Ev. lia. }
    rewrite (round_pos_fixed (Zpos p) (Zpos (Qden V)) m e); try lia;
      [now symmetry|]. now rewrite <- EV.
  - exfalso.
    assert (H : 0 <= V).
    { rewrite Ev. apply Qmult_le_0_compat; [|now apply Qlt_le_weak].
      change 0 with (inject_Z 0). rewrite <- Zle_Qle. lia. }
    unfold Qle in H. rewrite En in H. cbn in H. lia.
Qed.

Lemma round_double_opp (q : Q) : round_double (- q) == - round_double q.
Proof.
  unfold round_double. destruct q as [[|p|p] d]; cbn [Qnum Qden Qopp Z.opp].
  - reflexivity.
  - reflexivity.
  - now rewrite Qopp_involutive.
Qed.

(** Rounding a rounded number changes nothing. *)
Lemma round_double_idem (q : Q) :
  round_double (round_double q) == round_double q.
Proof.
  unfold round_double at 2. destruct q as [[|n|n] d]; cbn [Qnum Qden].
  - reflexivity.
  - apply round_pos_twice.
  - rewrite round_double_opp. now rewrite round_pos_twice.
Qed.

(** Numbers that are equal round to the same double. *)
Lemma round_double_comp (p q : Q) : p == q -> round_double p == round_double q.
Proof.
  intro E. apply Qle_antisym; apply round_double_mono; rewrite E;
    apply Qle_refl.
Qed.

Lemma round_double_nonpos (q : Q) : q <= 0 -> round_double q <= 0.
Proof. intro H. apply (round_double_mono q 0 H). Qed.

Lemma round_double_nonneg (q : Q) : 0 <= q -> 0 <= round_double q.
Proof. intro H. apply (round_double_mono 0 q H). Qed.

(** An int of at most 53 bits is a double. *)
Lemma round_double_int (z : Z) :
  (Z.abs z <= 2 ^ 53)%Z -> round_double (inject_Z z) == inject_Z z.
Proof.
  intro Hz.
  assert (Hpos : forall p : positive, (Zpos p <= 2 ^ 53)%Z ->
            round_pos (Zpos p) 1 == inject_Z (Zpos p)).
  { intros p Hp.
    rewrite (round_pos_fixed (Zpos p) 1 (Zpos p) 0); try lia.
    - change (2 ^ 0) with 1. ring.
    - change (2 ^ 0) with 1. change (inject_Z 1) with 1. field. }
  unfold round_double, inject_Z. cbn [Qnum Qden].
  destruct z as [|p|p].
  - reflexivity.
  - apply Hpos. lia.
  - change (Z.neg p # 1) with (- inject_Z (Zpos p)).
    rewrite (Hpos p) by lia. reflexivity.
Qed.

(** The band around a split that is a double: its bounds, as computed, lie
    on either side of the split. *)
Lemma band_around_double (s buff : Q) :
  round_double s == s -> 0 <= buff ->
  round_double (s - 5) <= s + buff /\ s - buff <= round_double (s + 5).
Proof.
  intros Es Hb.
  assert (H1 : round_double (s - 5) <= round_double s)
    by (apply round_double_mono; lra).
  assert (H2 : round_double s <= round_double (s + 5))
    by (apply round_double_mono; lra).
  rewrite Es in H1, H2. split; lra.
Qed.

(** ** The histogram *)

Section RoundedHistogram.
Variable rnd : Q -> Q.

Lemma py_div_fl_ok (a b : Q) :
  ~ b == 0 -> py_div_fl rnd a b = Ret (rnd (a / b)).
Proof.
  intro Hb. unfold py_div_fl. destruct (Qeq_bool b 0) eqn:E; [|reflexivity].
  apply Qeq_bool_iff in E. contradiction.
Qed.

Lemma mark_box_fl_ok (page_width : Q) (dm : list bool) (b : Box) :
  ~ page_width == 0 ->
  mark_box_fl rnd page_width dm b
  = Ret (slice_fill dm (box_start_fl rnd page_width b)
                       (box_stop_fl rnd page_width b)).
Proof.
  intro Hpw. unfold mark_box_fl. rewrite !py_div_fl_ok by assumption.
  reflexivity.
Qed.

Lemma build_histogram_fl_spec (page_width : Q) (bs : list Box) :
  ~ page_width == 0 ->
  forall dm, List.length dm = 400%nat ->
  exists dm',
    build_histogram_fl rnd page_width dm bs = Ret dm'
    /\ List.length dm' = 400%nat
    /\ forall k, (0 <= k < 400)%Z ->
         (occupied dm' k = true <->
            occupied dm k = true
            \/ exists b, In b bs /\ marks_fl rnd page_width b k).
Proof.
  intro Hpw. induction bs as [|b bs IH]; intros dm Hlen;
    cbn [build_histogram_fl].
  - exists dm. split; [reflexivity|]. split; [exact Hlen|].
    intros k _. split; [now left|]. intros [H|(b & [] & _)]. exact H.
  - rewrite mark_box_fl_ok by assumption. cbn [bind].
    set (dm1 := slice_fill dm _ _).
    assert (Hlen1 : List.length dm1 = 400%nat)
      by (unfold dm1; now rewrite slice_fill_length).
    destruct (IH dm1 Hlen1) as (dm' & E & Hlen' & Hocc).
    exists dm'. split; [exact E|]. split; [exact Hlen'|].
    intros k Hk. rewrite (Hocc k Hk). unfold dm1.
    rewrite slice_fill_occupied by (rewrite Hlen; lia).
    rewrite Hlen. change (Z.of_nat 400) with bins.
    fold (marks_fl rnd page_width b k). split.
    + intros [[Hm|Hd]|(c & Hc & Hm)].
      * right. exists b. split; [now left|exact Hm].
      * now left.
      * right. exists c. split; [now right|exact Hm].
    + intros [Hd|(c & [<-|Hc] & Hm)].
      * left. now right.
      * left. now left.
      * right. now exists c.
Qed.

Lemma density_map_fl_bins (boxes : list Box) (page_width page_height : Q) :
  ~ page_width == 0 ->
  exists dm,
    density_map_fl rnd boxes page_width page_height = Ret dm
    /\ List.length dm = 400%nat
    /\ forall k, (0 <= k < 400)%Z ->
         (occupied dm k = true <->
            exists b, In b (valid_boxes_fl rnd boxes page_width page_height)
                      /\ marks_fl rnd page_width b k).
Proof.
  intro Hpw. unfold density_map_fl.
  destruct (build_histogram_fl_spec page_width
              (valid_boxes_fl rnd boxes page_width page_height) Hpw zeros
              zeros_length) as (dm & E & Hlen & Hocc).
  exists dm. split; [exact E|]. split; [exact Hlen|].
  intros k Hk. rewrite (Hocc k Hk), zeros_free. split.
  - intros [H|H]; [discriminate|exact H].
  - intro H. now right.
Qed.

(** What [find_split_x] answers, read off the gaps of its histogram. *)
Lemma split_of_gaps_fl_spec (dm : list bool) (page_width : Q) :
  (forall v, split_of_gaps_fl rnd (find_gaps dm) page_width = Some v <->
     exists a b,
       widest_run dm a b /\ (8 < b - a)%Z
       /\ v = rnd (rnd (rnd (inject_Z a + rnd (inject_Z (b - a) / 2))
                        / inject_Z bins) * page_width))
  /\ (split_of_gaps_fl rnd (find_gaps dm) page_width = None <->
        forall a b, maximal_run dm a b -> (b - a <= 8)%Z).
Proof.
  destruct (find_gaps_spec dm) as [Hin _].
  unfold split_of_gaps_fl. destruct (find_gaps dm) as [|g gs] eqn:E.
  - split.
    + intro v. split; [discriminate|].
      intros (a & b & [Hr _] & _). now apply Hin in Hr.
    + split; [|reflexivity]. intros _ a b Hr. now apply Hin in Hr.
  - pose proof (widest_is_widest_run dm g gs E) as Hw.
    set (w := widest g gs) in *. unfold gap_width.
    destruct (Qltb _ _) eqn:Hwide.
    + apply two_percent_of_bins in Hwide. split.
      * intro v. split.
        -- intro Hv. exists (fst w), (snd w). repeat split; try apply Hw; auto.
           now inversion Hv.
        -- intros (a & b & Hab & _ & ->).
           destruct (widest_run_unique _ _ _ _ _ Hw Hab) as [<- <-].
           reflexivity.
      * split; [discriminate|]. intro Hall.
        specialize (Hall _ _ (proj1 Hw)). lia.
    + assert (Hn : (snd w - fst w <= 8)%Z).
      { destruct (Z.le_gt_cases (snd w - fst w) 8) as [|Hgt]; [assumption|].
        apply two_percent_of_bins in Hgt. congruence. }
      split.
      * intro v. split; [discriminate|].
        intros (a & b & Hab & Hgt & _).
        destruct (widest_run_unique _ _ _ _ _ Hw Hab) as [<- <-]. lia.
      * split; [|reflexivity]. intros _ a b Hr.
        destruct (proj2 Hw _ _ Hr); lia.
Qed.

End RoundedHistogram.

(** X1.  On a page of non-zero width the histogram has 400 bins, and a bin
    is occupied exactly when one of the boxes that passed the filter (or,
    when none passed, one of all the boxes) marks it with its slice
    [max(0, int((x0 / w) * 400)) : min(400, int((x1 / w) * 400))], the
    quotient and the product each rounded before [int] truncates. *)
Theorem histogram_bins (rnd : Q -> Q)
  (boxes : list Box) (page_width page_height : Q) :
  ~ page_width == 0 ->
  exists dm,
    density_map_fl rnd boxes page_width page_height = Ret dm
    /\ List.length dm = 400%nat
    /\ forall k, (0 <= k < 400)%Z ->
         (occupied dm k = true <->
            exists b, In b (valid_boxes_fl rnd boxes page_width page_height)
                      /\ marks_fl rnd page_width b k).
Proof.
  apply density_map_fl_bins.
Qed.

Lemma py_int_nonpos (q : Q) : q <= 0 -> (py_int q <= 0)%Z.
Proof.
  intro Hq. destruct q as [n d]. unfold Qle in Hq. unfold py_int.
  cbn [Qnum Qden] in *.
  rewrite <- (Z.opp_involutive n), Z.quot_opp_l by lia.
  assert (0 <= - n ÷ Z.pos d)%Z by (apply Z.quot_pos; lia). lia.
Qed.

(** X3.  A box lying left of the page is not ignored.  Its start index is
    0.  When the stop index computed for its right edge is [-j] with
    [j >= 1], the slice counts the stop from the end of the array, and the
    box marks every bin from 0 up to, but not including, [400 - j]. *)
Theorem marks_left_of_page (rnd : Q -> Q) (page_width : Q) (b : Box) (k : Z) :
  (forall q, q <= 0 -> rnd q <= 0) ->
  0 < page_width -> x0 b <= 0 ->
  (box_stop_fl rnd page_width b <= -1)%Z ->
  (0 <= k < 400)%Z ->
  let j := (- box_stop_fl rnd page_width b)%Z in
  box_start_fl rnd page_width b = 0%Z
  /\ (marks_fl rnd page_width b k <-> (k < 400 - j)%Z).
Proof.
  intros Hsign Hw Hx0 Hj Hk. cbv zeta.
  assert (Hq : x0 b / page_width <= 0).
  { assert (E : x0 b / page_width == - (- x0 b / page_width))
      by (field; intro H0; rewrite H0 in Hw; lra).
    rewrite E. assert (0 <= - x0 b / page_width)
      by (apply Qle_shift_div_l; lra). lra. }
  assert (Hr : rnd (x0 b / page_width) * inject_Z bins <= 0).
  { specialize (Hsign _ Hq). unfold bins.
    change (inject_Z 400) with 400. lra. }
  pose proof (py_int_nonpos _ (Hsign _ Hr)) as Hs.
  assert (E0 : box_start_fl rnd page_width b = 0%Z)
    by (unfold box_start_fl; lia).
  split; [exact E0|].
  unfold marks_fl. rewrite E0.
  set (p := box_stop_fl rnd page_width b) in *. unfold slice_index, bins.
  destruct (Z.ltb_spec 0 0); [lia|].
  destruct (Z.ltb_spec p 0); lia.
Qed.

(** ** The split detector *)

(** C4.  For a page of non-zero width the detector builds its histogram
    and returns.  It returns a split exactly when the widest maximal run of
    unoccupied bins of the 20%-80% window (the leftmost one among equally
    wide runs) is wider than 2% of the 400 bins, that is wider than 8 bins.
    The split is then [(gap_start + gap_width/2) / 400 * page_width] as
    floating point computes it, each of the four operations rounding its
    result.  It returns none exactly when no maximal run is wider than 8
    bins. *)
Theorem find_split_x_widest_gap (rnd : Q -> Q)
  (boxes : list Box) (page_width page_height : Q) :
  ~ page_width == 0 ->
  exists dm res,
    density_map_fl rnd boxes page_width page_height = Ret dm
    /\ find_split_x_fl rnd boxes page_width page_height = Ret res
    /\ inject_Z bins * 0.02 == 8
    /\ (forall v, res = Some v <->
          exists a b,
            widest_run dm a b /\ (8 < b - a)%Z
            /\ v = rnd (rnd (rnd (inject_Z a + rnd (inject_Z (b - a) / 2))
                             / inject_Z bins) * page_width))
    /\ (res = None <-> forall a b, maximal_run dm a b -> (b - a <= 8)%Z).
Proof.
  intro Hpw.
  destruct (density_map_fl_bins rnd boxes page_width page_height Hpw)
    as (dm & Hdm & _).
  exists dm, (split_of_gaps_fl rnd (find_gaps dm) page_width).
  split; [exact Hdm|]. split; [unfold find_split_x_fl; now rewrite Hdm|].
  split; [reflexivity|]. apply split_of_gaps_fl_spec.
Qed.

(** ** The line rule *)



Section RoundedLines.
Variable rnd : Q -> Q.




(** The line loop merges exactly the groups. *)
Lemma cluster_lines_fl_groups (raw_items : list Item) (split_x : option Q) :
  cluster_lines_fl rnd raw_items split_x
  = map (fun g => _merge_items g " ") (line_groups_fl rnd raw_items split_x).
Proof.
  unfold cluster_lines_fl, line_groups_fl, segments.
  apply (loop_segments (line_ok_fl rnd split_x) (fun g => _merge_items g " ")
           (line_step_fl rnd split_x)).
  - reflexivity.
  - intros out c cur x. unfold line_step_fl, line_ok_fl. cbn [last_of].
    reflexivity.
Qed.

Lemma line_groups_fl_nonempty (raw_items : list Item) (split_x : option Q) :
  forall g, In g (line_groups_fl rnd raw_items split_x) -> g <> [].
Proof.
  intros g Hg.
  apply (segments_ind (line_ok_fl rnd split_x) (fun _ => True)) in Hg; tauto.
Qed.

Lemma cluster_lines_fl_sorted (raw_items : list Item) (split_x : option Q) :
  StronglySorted (fun a b => y0 (box a) <= y0 (box b))
                 (cluster_lines_fl rnd raw_items split_x).
Proof.
  rewrite cluster_lines_fl_groups. apply merged_groups_sorted.
  - unfold line_groups_fl. rewrite segments_concat.
    apply (sort_by_sorted (fun i => y0 (box i))).
  - apply line_groups_fl_nonempty.
Qed.

Lemma block_groups_fl_concat (raw_items : list Item) (split_x : option Q) :
  List.concat (block_groups (cluster_lines_fl rnd raw_items split_x) split_x)
  = cluster_lines_fl rnd raw_items split_x.
Proof.
  unfold block_groups. rewrite segments_concat.
  apply (sort_by_id (fun l => y0 (box l))). apply cluster_lines_fl_sorted.
Qed.

Lemma page_structure_fl_lines (raw_items : list Item) (split_x : option Q) :
  map (map (fun g => _merge_items g " "))
      (page_structure_fl rnd raw_items split_x)
  = block_groups (cluster_lines_fl rnd raw_items split_x) split_x.
Proof.
  unfold page_structure_fl. rewrite <- regroup_map, <- cluster_lines_fl_groups.
  rewrite <- (block_groups_fl_concat raw_items split_x) at 2.
  apply regroup_concat.
Qed.


(** ** The barrier *)







End RoundedLines.




(** ** The earlier detector: the counters *)

Section RoundedCounters.
Variable rnd : Q -> Q.

Lemma obs_fl_bounds (obs : Observation) :
  (0 <= obs_start_fl rnd obs)%Z /\ (obs_stop_fl rnd obs <= 100)%Z.
Proof. unfold obs_start_fl, obs_stop_fl. lia. Qed.

Lemma add_observation_fl_at (dm : list Z) (obs : Observation) (k : Z) :
  List.length dm = 100%nat -> (0 <= k < 100)%Z ->
  List.length (add_observation_fl rnd dm obs) = 100%nat
  /\ count_at (add_observation_fl rnd dm obs) k
     = (count_at dm k
        + if ((obs_start_fl rnd obs <=? k) && (k <? obs_stop_fl rnd obs))%Z
          then 1 else 0)%Z.
Proof.
  intros Hlen Hk. unfold add_observation_fl, range.
  destruct (obs_fl_bounds obs) as [Hs He].
  set (a := obs_start_fl rnd obs) in *. set (b := obs_stop_fl rnd obs) in *.
  destruct (count_range_at (Z.to_nat (b - a)) dm a k Hlen Hs Hk)
    as [Hlen' Hc].
  split; [exact Hlen'|]. rewrite Hc. f_equal.
  destruct (Z.leb_spec a k); cbn [andb]; [|reflexivity].
  destruct (Z.ltb_spec k b), (Z.ltb_spec k (a + Z.of_nat (Z.to_nat (b - a))));
    lia.
Qed.

Lemma counts_fl_from (observations : list Observation) (k : Z) :
  (0 <= k < 100)%Z ->
  forall dm, List.length dm = 100%nat ->
    count_at (fold_left (add_observation_fl rnd) observations dm) k
    = (count_at dm k
       + Z.of_nat (List.length (covering_fl rnd k observations)))%Z.
Proof.
  intro Hk. induction observations as [|obs l IH]; intros dm Hlen.
  - unfold covering_fl. cbn [fold_left filter List.length Z.of_nat]. lia.
  - cbn [fold_left]. unfold covering_fl in *. cbn [filter].
    destruct (add_observation_fl_at dm obs k Hlen Hk) as [Hlen' Hc].
    rewrite (IH _ Hlen'), Hc.
    destruct ((obs_start_fl rnd obs <=? k)%Z && (k <? obs_stop_fl rnd obs)%Z);
      cbn [List.length]; lia.
Qed.

End RoundedCounters.

(** X16.  The counters of the earlier detector.  Counter [k] of the 100
    holds the number of observations whose slice of bins, from
    [max(0, int(x * 100))] up to [min(100, int((x + width) * 100))],
    contains [k], the sum and the products rounded before [int] truncates;
    a bin is empty exactly when no observation covers it. *)
Theorem counts_covering (rnd : Q -> Q)
  (observations : list Observation) (k : Z) :
  (0 <= k < 100)%Z ->
  count_at (counts_fl rnd observations) k
  = Z.of_nat (List.length (covering_fl rnd k observations))
  /\ (count_at (counts_fl rnd observations) k = 0%Z <->
        forall obs, In obs observations ->
          ~ (obs_start_fl rnd obs <= k < obs_stop_fl rnd obs)%Z).
Proof.
  intro Hk. unfold counts_fl.
  assert (Hc := counts_fl_from rnd observations k Hk (repeat 0%Z 100)
                  (repeat_length _ _)).
  assert (H0 : count_at (repeat 0%Z 100) k = 0%Z).
  { unfold count_at. generalize (Z.to_nat k). intro n.
    generalize 100%nat. intro m. revert n.
    induction m as [|m IH]; intros [|n]; cbn [repeat nth]; auto. }
  rewrite H0 in Hc. rewrite Hc. split; [lia|].
  split.
  - intros Hz obs Hin Hcov.
    assert (Hi : In obs (covering_fl rnd k observations)).
    { apply filter_In. split; [exact Hin|].
      apply andb_true_iff. rewrite Z.leb_le, Z.ltb_lt. exact Hcov. }
    destruct (covering_fl rnd k observations); [destruct Hi|].
    cbn [List.length] in Hz. lia.
  - intro Hnone.
    destruct (covering_fl rnd k observations) as [|obs l] eqn:E;
      [reflexivity|]. exfalso.
    assert (Hi : In obs (covering_fl rnd k observations))
      by (rewrite E; now left).
    apply filter_In in Hi. destruct Hi as [Hin Hcov].
    apply andb_true_iff in Hcov. rewrite Z.leb_le, Z.ltb_lt in Hcov.
    exact (Hnone obs Hin Hcov).
Qed.

(** ** Drawing on the page *)

(** X19.  The rectangle that main.py draws for a recognized box.  For a
    rounding that keeps the order of numbers and leaves 0, 1 and every
    rounded number as they are, and a normalized box inside the unit
    square, the rectangle has [0 <= x0 <= x1] and [0 <= y0 <= y1]: the
    flip of the vertical axis never yields a negative height or a top edge
    above the page. *)
Theorem pdf_rect_on_page (rnd : Q -> Q) (pdf_w pdf_h vx vy vw vh : Q) :
  (forall a b, a <= b -> rnd a <= rnd b) ->
  (forall q, rnd (rnd q) == rnd q) ->
  rnd 0 == 0 -> rnd 1 == 1 ->
  0 <= pdf_w -> 0 <= pdf_h ->
  0 <= vx -> 0 <= vy -> 0 <= vw -> 0 <= vh -> vy + vh <= 1 ->
  let r := pdf_rect_fl rnd pdf_w pdf_h (vx, vy, vw, vh) in
  (0 <= x0 r /\ x0 r <= x1 r) /\ (0 <= y0 r /\ y0 r <= y1 r).
Proof.
  intros Hmono Hidem H0 H1 Hw Hh Hx Hy Hvw Hvh Hyh. cbv zeta.
  unfold pdf_rect_fl. cbn [x0 y0 x1 y1].
  assert (Hpos : forall q, 0 <= q -> 0 <= rnd q).
  { intros q Hq. rewrite <- H0. now apply Hmono. }
  assert (Hgrow : forall q d, 0 <= d -> rnd q <= rnd (rnd q + d)).
  { intros q d Hd. rewrite <- (Hidem q) at 1. apply Hmono. lra. }
  assert (Hs : rnd (vy + vh) <= 1) by (rewrite <- H1; now apply Hmono).
  assert (Hf : 0 <= rnd (1.0 - rnd (vy + vh))) by (apply Hpos; lra).
  repeat split.
  - apply Hpos. now apply Qmult_nonneg.
  - apply Hgrow. apply Hpos. now apply Qmult_nonneg.
  - apply Hpos. now apply Qmult_nonneg.
  - apply Hgrow. apply Hpos. now apply Qmult_nonneg.
Qed.

(** ** The rounded pipeline and the exact one *)

(** What [process_page] returns, stage by stage. *)
Lemma process_page_fl_stages (rnd : Q -> Q) (raw_items : list Item)
  (page_width page_height : Q) (blocks : list Item) (split_x : option Q) :
  process_page_fl rnd raw_items page_width page_height
  = Ret (blocks, split_x) ->
  (raw_items <> [] ->
   find_split_x_fl rnd (map box raw_items) page_width page_height
   = Ret split_x)
  /\ blocks
     = map (fun g => _merge_items g newline)
           (block_groups (cluster_lines_fl rnd raw_items split_x) split_x)
  /\ map (map (fun g => _merge_items g " "))
         (page_structure_fl rnd raw_items split_x)
     = block_groups (cluster_lines_fl rnd raw_items split_x) split_x.
Proof.
  intro E. split; [|split].
  - intro Hne. unfold process_page_fl in E.
    destruct raw_items as [|i items]; [contradiction|].
    destruct (find_split_x_fl _ _ _ _) as [s|e]; cbn [bind] in E;
      [|discriminate].
    apply Ret_inj in E. injection E as _ <-. reflexivity.
  - rewrite <- cluster_vertical_groups. unfold process_page_fl in E.
    destruct raw_items as [|i items].
    + apply Ret_inj in E. injection E as <- <-. reflexivity.
    + destruct (find_split_x_fl _ _ _ _) as [s|e]; cbn [bind] in E;
        [|discriminate].
      apply Ret_inj in E. injection E as <- <-. reflexivity.
  - apply page_structure_fl_lines.
Qed.

(** The first part of the development is the program with operations that
    do not round. *)
Lemma build_histogram_fl_exact (page_width : Q) (bs : list Box) :
  forall dm,
    build_histogram_fl (fun q => q) page_width dm bs
    = build_histogram page_width dm bs.
Proof.
  induction bs as [|b bs IH]; intro dm;
    cbn [build_histogram_fl build_histogram]; [reflexivity|].
  change (mark_box_fl (fun q => q) page_width dm b)
    with (mark_box page_width dm b).
  destruct (mark_box page_width dm b) as [dm'|e]; cbn [bind];
    [apply IH | reflexivity].
Qed.

Lemma process_page_fl_exact (raw_items : list Item)
  (page_width page_height : Q) :
  process_page_fl (fun q => q) raw_items page_width page_height
  = process_page raw_items page_width page_height.
Proof.
  unfold process_page_fl, process_page, find_split_x_fl, find_split_x,
    density_map_fl, density_map.
  destruct raw_items as [|i items]; [reflexivity|].
  rewrite build_histogram_fl_exact. reflexivity.
Qed.

(** Where rounding moves a bin: the stop index of a box that ends at 29 on
    a page 100 wide, and of one that ends at 1479 on a page 2550 wide. *)
Lemma stop_index_in_doubles :
  box_stop_fl round_double 100 (mkBox 0 500 29 510) = 115%Z
  /\ box_stop 100 (mkBox 0 500 29 510) = 116%Z
  /\ box_stop_fl round_double 2550 (mkBox 0 500 1479 510) = 231%Z
  /\ box_stop 2550 (mkBox 0 500 1479 510) = 232%Z.
Proof. repeat split; vm_compute; reflexivity. Qed.

(** ** The band on a page 3000 wide *)

(** On the page 3000 wide the split is the double next above 1020.  Its
    sum with 5 is rounded down to 1025, so the band the code uses ends
    below [split + 5]. *)
Lemma band_of_split_3000 :
  find_split_x_fl round_double (map box page_wide) 3000 2250
  = Ret (Some split_3000)
  /\ 1020 < split_3000
  /\ round_double (split_3000 - 5) == split_3000 - 5
  /\ round_double (split_3000 + 5) = 1025
  /\ 1025 < split_3000 + 5.
Proof. repeat split; vm_compute; reflexivity. Qed.

(** A fragment that ends at 1025 covers the band the code uses, though not
    the band from [split - 5] to [split + 5], and holds "A" and "C" in one
    Line. *)
Lemma band_is_the_computed_one :
  let s := split_3000 in
  let f := frag "f" 890 200 1025 220 in
  spans_band (round_double (s - 5)) (round_double (s + 5)) (box f)
  /\ ~ spans_band (s - 5) (s + 5) (box f)
  /\ line_groups_fl round_double page_row (Some s) = [page_row]
  /\ separated s 5 (box (frag "A" 800 200 880 220))
                   (box (frag "C" 1040 200 1100 220)).
Proof.
  cbv zeta. split; [split; vm_compute; discriminate|].
  split; [intros [_ H]; revert H; vm_compute; intro H; now apply H|].
  split; [vm_compute; reflexivity|].
  split; vm_compute; reflexivity.
Qed.

(** ** These theorems at sample pages *)

Lemma find_split_x_widest_gap_witness :
  ~ 2550 == 0
  /\ find_split_x_fl round_double page_letter 2550 3300
     = Ret (Some (6280410417856513 # 4398046511104))
  /\ exists dm res,
       density_map_fl round_double page_letter 2550 3300 = Ret dm
       /\ find_split_x_fl round_double page_letter 2550 3300 = Ret res
       /\ inject_Z bins * 0.02 == 8
       /\ (forall v, res = Some v <->
             exists a b,
               widest_run dm a b /\ (8 < b - a)%Z
               /\ v = round_double
                        (round_double
                           (round_double
                              (inject_Z a
                               + round_double (inject_Z (b - a) / 2))
                            / inject_Z bins) * 2550))
       /\ (res = None <-> forall a b, maximal_run dm a b -> (b - a <= 8)%Z).
Proof.
  assert (H : ~ 2550 == 0) by (unfold Qeq; simpl; lia).
  split; [exact H|]. split; [vm_compute; reflexivity|].
  exact (find_split_x_widest_gap round_double page_letter 2550 3300 H).
Defined.



Lemma histogram_bins_witness :
  let b := mkBox 0 500 29 510 in
  ~ 100 == 0
  /\ box_stop_fl round_double 100 b = 115%Z
  /\ exists dm,
       density_map_fl round_double [b] 100 800 = Ret dm
       /\ List.length dm = 400%nat
       /\ forall k, (0 <= k < 400)%Z ->
            (occupied dm k = true <->
               exists b', In b' (valid_boxes_fl round_double [b] 100 800)
                          /\ marks_fl round_double 100 b' k).
Proof.
  cbv zeta.
  assert (H : ~ 100 == 0) by (unfold Qeq; simpl; lia).
  split; [exact H|]. split; [vm_compute; reflexivity|].
  exact (histogram_bins round_double [mkBox 0 500 29 510] 100 800 H).
Defined.

Lemma marks_left_of_page_witness :
  (forall q, q <= 0 -> round_double q <= 0)
  /\ 0 < 100 /\ x0 box_off_page <= 0
  /\ (box_stop_fl round_double 100 box_off_page <= -1)%Z
  /\ (0 <= 284 < 400)%Z
  /\ box_stop_fl round_double 100 box_off_page = (-115)%Z
  /\ box_start_fl round_double 100 box_off_page = 0%Z
  /\ (marks_fl round_double 100 box_off_page 284 <->
        (284 < 400 - - box_stop_fl round_double 100 box_off_page)%Z).
Proof.
  assert (H1 : 0 < 100) by reflexivity.
  assert (H2 : x0 box_off_page <= 0) by (unfold Qle; simpl; lia).
  assert (H3 : (box_stop_fl round_double 100 box_off_page <= -1)%Z)
    by (vm_compute; discriminate).
  assert (H4 : (0 <= 284 < 400)%Z) by lia.
  split; [exact round_double_nonpos|].
  split; [exact H1|]. split; [exact H2|]. split; [exact H3|].
  split; [exact H4|]. split; [vm_compute; reflexivity|].
  exact (marks_left_of_page round_double 100 box_off_page 284
           round_double_nonpos H1 H2 H3 H4).
Defined.

Lemma counts_covering_witness :
  (0 <= 29 < 100)%Z
  /\ count_at (counts_fl round_double two_columns_fl) 29 = 0%Z
  /\ count_at (counts_fl round_double two_columns_fl) 30 = 1%Z
  /\ count_at (counts_fl round_double two_columns_fl) 29
     = Z.of_nat (List.length (covering_fl round_double 29 two_columns_fl))
  /\ (count_at (counts_fl round_double two_columns_fl) 29 = 0%Z <->
        forall obs, In obs two_columns_fl ->
          ~ (obs_start_fl round_double obs <= 29
             < obs_stop_fl round_double obs)%Z).
Proof.
  assert (H : (0 <= 29 < 100)%Z) by lia.
  split; [exact H|]. split; [vm_compute; reflexivity|].
  split; [vm_compute; reflexivity|].
  exact (counts_covering round_double two_columns_fl 29 H).
Defined.

Lemma pdf_rect_on_page_witness :
  let vx := round_double (1 # 10) in
  let vw := round_double (3 # 10) in
  let vh := round_double (17 # 4001) in
  let r := pdf_rect_fl round_double 612 792 (vx, 0, vw, vh) in
  ((forall a b, a <= b -> round_double a <= round_double b)
   /\ (forall q, round_double (round_double q) == round_double q)
   /\ round_double 0 == 0 /\ round_double 1 == 1)
  /\ (0 <= 612 /\ 0 <= 792 /\ 0 <= vx /\ 0 <= 0 /\ 0 <= vw /\ 0 <= vh
      /\ 0 + vh <= 1)
  /\ 792 < y1 r
  /\ (0 <= x0 r /\ x0 r <= x1 r) /\ (0 <= y0 r /\ y0 r <= y1 r).
Proof.
  cbv zeta.
  assert (M3 : round_double 0 == 0) by reflexivity.
  assert (M4 : round_double 1 == 1) by (vm_compute; reflexivity).
  assert (H1 : 0 <= 612) by (unfold Qle; simpl; lia).
  assert (H2 : 0 <= 792) by (unfold Qle; simpl; lia).
  assert (H3 : 0 <= round_double (1 # 10)) by (vm_compute; discriminate).
  assert (H4 : 0 <= 0) by apply Qle_refl.
  assert (H5 : 0 <= round_double (3 # 10)) by (vm_compute; discriminate).
  assert (H6 : 0 <= round_double (17 # 4001)) by (vm_compute; discriminate).
  assert (H8 : 0 + round_double (17 # 4001) <= 1)
    by (vm_compute; discriminate).
  split; [repeat split; try assumption;
          [exact round_double_mono | exact round_double_idem]|].
  split; [repeat split; assumption|].
  split; [vm_compute; reflexivity|].
  exact (pdf_rect_on_page round_double 612 792
           (round_double (1 # 10)) 0 (round_double (3 # 10))
           (round_double (17 # 4001))
           round_double_mono round_double_idem M3 M4 H1 H2 H3 H4 H5 H6 H8).
Defined.
